(** * Dynamic custom-field tabs: partitioner, presenter and entry point

    A shallow embedding of [assets/js/theme/product/dynamic-custom-field-tabs.js].

    - JavaScript values are the JSON-shaped values a Stencil page context can
      carry, plus [undefined].
    - Strings are sequences of Latin-1 code units (Rocq's [ascii]); on that
      range [trim], [toLowerCase] and the regular-expression class [\s] are
      tabulated exactly as ECMAScript defines them.
    - Code that can raise a [TypeError] returns a [Result].
    - The document is the part of the host template the script touches: the
      product-info list, the tab-label list, the tab-content container and
      the delegated click listeners registered on [document]. *)

From Stdlib Require Import Ascii String DecimalString DecimalNat DecimalFacts.
From stdpp Require Import list strings.

Set Warnings "-register-all".

(** ** Strings *)

Module JsString.

Definition code (c : ascii) : nat := nat_of_ascii c.

(** ECMAScript WhiteSpace and LineTerminator code units below 256:
    TAB, LF, VT, FF, CR, SP and NBSP.  [String.prototype.trim] and the
    regular-expression class [\s] both use this set. *)
Definition isWhiteSpace (c : ascii) : bool :=
  let n := code c in
  (Nat.leb 9 n && Nat.leb n 13) || Nat.eqb n 32 || Nat.eqb n 160.

(** [toLowerCase] on one Latin-1 code unit: A-Z, and the accented capitals
    U+00C0-U+00DE except the multiplication sign U+00D7. *)
Definition toLowerChar (c : ascii) : ascii :=
  let n := code c in
  if (Nat.leb 65 n && Nat.leb n 90)
     || (Nat.leb 192 n && Nat.leb n 214)
     || (Nat.leb 216 n && Nat.leb n 222)
  then ascii_of_nat (n + 32) else c.

Fixpoint toLowerCase (s : string) : string :=
  match s with
  | EmptyString => EmptyString
  | String c r => String (toLowerChar c) (toLowerCase r)
  end.

Fixpoint trimStart (s : string) : string :=
  match s with
  | EmptyString => EmptyString
  | String c r => if isWhiteSpace c then trimStart r else s
  end.

Fixpoint trimEnd (s : string) : string :=
  match s with
  | EmptyString => EmptyString
  | String c r =>
      match trimEnd r with
      | EmptyString => if isWhiteSpace c then EmptyString else String c EmptyString
      | r' => String c r'
      end
  end.

(** [s.trim()] *)
Definition trim (s : string) : string := trimEnd (trimStart s).

(** [s.replace(/\s+/g, '-')]: [inRun] tells that the previous code unit
    belonged to the whitespace run being replaced. *)
Fixpoint replaceWsRunsFrom (inRun : bool) (s : string) : string :=
  match s with
  | EmptyString => EmptyString
  | String c r =>
      if isWhiteSpace c
      then if inRun then replaceWsRunsFrom true r
           else String "-" (replaceWsRunsFrom true r)
      else String c (replaceWsRunsFrom false r)
  end.

Definition replaceWsRuns (s : string) : string := replaceWsRunsFrom false s.

(** The character class [a-z0-9-]. *)
Definition isSlugChar (c : ascii) : bool :=
  let n := code c in
  (Nat.leb 97 n && Nat.leb n 122) || (Nat.leb 48 n && Nat.leb n 57) || Nat.eqb n 45.

(** [s.replace(/[^a-z0-9-]/g, '')] *)
Fixpoint stripNonSlug (s : string) : string :=
  match s with
  | EmptyString => EmptyString
  | String c r =>
      if isSlugChar c then String c (stripNonSlug r) else stripNonSlug r
  end.

Definition isEmpty (s : string) : bool :=
  match s with EmptyString => true | _ => false end.

(** [s.startsWith(p)], the test behind the attribute selector [href^=p]. *)
Fixpoint startsWith (p s : string) : bool :=
  match p, s with
  | EmptyString, _ => true
  | String a p', String b s' => Ascii.eqb a b && startsWith p' s'
  | String _ _, EmptyString => false
  end.

(** Template-literal rendering of an array index or length: decimal digits. *)
Definition ofNat (n : nat) : string := NilZero.string_of_uint (Nat.to_uint n).

End JsString.

(** ** JavaScript values and exceptions *)

Inductive JsError := TypeError.

Inductive Result (A : Type) :=
| Ok (a : A)
| Throw (e : JsError).
Arguments Ok {A} a.
Arguments Throw {A} e.

#[global] Instance Result_ret : MRet Result := fun A a => Ok a.
#[global] Instance Result_bind : MBind Result := fun A B f m =>
  match m with
  | Ok a => f a
  | Throw e => Throw e
  end.

Definition returns {A} (m : Result A) : bool :=
  match m with Ok _ => true | Throw _ => false end.

(** A Number is carried by the text [Number.prototype.toString] prints for it
    (["0"], ["3.5"], ["1e+21"], ["NaN"], ...); the script only ever converts
    numbers to strings or tests their truthiness. *)
Inductive JsVal :=
| JUndefined
| JNull
| JBool (b : bool)
| JNum (text : string)
| JStr (s : string)
| JArr (elems : list JsVal)
| JObj (props : list (string * JsVal)).

Module Js.

(** ToBoolean *)
Definition truthy (v : JsVal) : bool :=
  match v with
  | JUndefined | JNull => false
  | JBool b => b
  | JNum t => negb (String.eqb t "0" || String.eqb t "NaN")
  | JStr s => negb (JsString.isEmpty s)
  | JArr _ | JObj _ => true
  end.

(** [v == null] *)
Definition isNullish (v : JsVal) : bool :=
  match v with JUndefined | JNull => true | _ => false end.

Definition isArray (v : JsVal) : bool :=
  match v with JArr _ => true | _ => false end.

Fixpoint lookupOwn (k : string) (props : list (string * JsVal)) : option JsVal :=
  match props with
  | [] => None
  | (k', v) :: rest => if String.eqb k k' then Some v else lookupOwn k rest
  end.

(** [v.k] for the property names the script reads ([name], [value],
    [productUseDynamicCustomFieldTabs], [productCustomFields]); none of them
    is defined on a built-in prototype, so only own properties of objects
    answer, and reading from [null] or [undefined] raises. *)
Definition get (v : JsVal) (k : string) : Result JsVal :=
  match v with
  | JUndefined | JNull => Throw TypeError
  | JObj props => Ok (default JUndefined (lookupOwn k props))
  | _ => Ok JUndefined
  end.

(** [String(v)].  An array joins its elements with commas, printing [null]
    and [undefined] elements as nothing.  A plain object prints as
    ["[object Object]"], unless it carries an own [toString] property: a
    JSON value is never callable, so the conversion then falls through
    [valueOf] and raises. *)
Fixpoint toString (v : JsVal) : Result string :=
  match v with
  | JUndefined => Ok "undefined"
  | JNull => Ok "null"
  | JBool true => Ok "true"
  | JBool false => Ok "false"
  | JNum t => Ok t
  | JStr s => Ok s
  | JArr elems =>
      let element (x : JsVal) : Result string :=
        if isNullish x then Ok "" else toString x in
      (fix join (l : list JsVal) : Result string :=
         match l with
         | [] => Ok ""
         | [x] => element x
         | x :: rest =>
             a ← element x; b ← join rest; Ok (a +:+ "," +:+ b)
         end) elems
  | JObj props =>
      match lookupOwn "toString" props with
      | Some _ => Throw TypeError
      | None => Ok "[object Object]"
      end
  end.

End Js.

(** ** The partitioner *)

Definition NEWTAB_TRIGGER_NAME : string := "__newtab".

(** [name && String(name).trim().toLowerCase() === NEWTAB_TRIGGER_NAME] *)
Definition isNewTabTrigger (name : JsVal) : Result JsVal :=
  if Js.truthy name
  then s ← Js.toString name;
       Ok (JBool (String.eqb (JsString.toLowerCase (JsString.trim s)) NEWTAB_TRIGGER_NAME))
  else Ok name.

Definition slugFallback (index : nat) : string :=
  "tab-custom-" +:+ JsString.ofNat index.

Definition slugify (label : JsVal) (index : nat) : string :=
  match label with
  | JStr l =>
      let slug :=
        JsString.stripNonSlug
          (JsString.replaceWsRuns (JsString.trim (JsString.toLowerCase l))) in
      if JsString.isEmpty slug then slugFallback index else slug
  | _ => slugFallback index
  end.

Record Field := { field_name : JsVal; field_value : JsVal }.

Record Tab := { tab_label : string; tab_slug : string; tab_fields : list Field }.

Record Partition := { leadingFields : list Field; tabs : list Tab }.

(** The variables the [forEach] callback closes over.  [currentTab] is a
    reference to an object that also sits in [tabs]: it is kept as the index
    of that object, so a push through [currentTab] is seen through [tabs]. *)
Record GroupState := {
  st_leadingFields : list Field;
  st_tabs : list Tab;
  st_currentTab : option nat;
  st_seenFirstTrigger : bool
}.

Definition pushField (f : Field) (t : Tab) : Tab :=
  {| tab_label := tab_label t; tab_slug := tab_slug t;
     tab_fields := tab_fields t ++ [f] |}.

(** The [name] constant of the callback: [field.name && String(field.name).trim()] *)
Definition fieldName (field : JsVal) : Result JsVal :=
  n ← Js.get field "name";
  if Js.truthy n then s ← Js.toString n; Ok (JStr (JsString.trim s)) else Ok n.

(** The [value] constant of the callback: [field.value != null ? field.value : ''] *)
Definition fieldValue (field : JsVal) : Result JsVal :=
  v ← Js.get field "value";
  Ok (if Js.isNullish v then JStr "" else v).

(** The [label] constant: [typeof value === 'string' ? value.trim() : String(value)] *)
Definition triggerLabel (value : JsVal) : Result string :=
  match value with
  | JStr s => Ok (JsString.trim s)
  | _ => Js.toString value
  end.

(** The body of the [forEach] callback. *)
Definition groupStep (st : GroupState) (field : JsVal) : Result GroupState :=
  name ← fieldName field;
  value ← fieldValue field;
  trigger ← isNewTabTrigger name;
  if Js.truthy trigger then
    label ← triggerLabel value;
    let currentTab :=
      {| tab_label := if JsString.isEmpty label then "Details" else label;
         tab_slug := slugify (JStr label) (length (st_tabs st));
         tab_fields := [] |} in
    Ok {| st_leadingFields := st_leadingFields st;
          st_tabs := st_tabs st ++ [currentTab];
          st_currentTab := Some (length (st_tabs st));
          st_seenFirstTrigger := true |}
  else if Js.truthy name then
    match st_seenFirstTrigger st, st_currentTab st with
    | true, Some i =>
        Ok {| st_leadingFields := st_leadingFields st;
              st_tabs := alter (pushField {| field_name := name; field_value := value |}) i (st_tabs st);
              st_currentTab := st_currentTab st;
              st_seenFirstTrigger := st_seenFirstTrigger st |}
    | _, _ =>
        Ok {| st_leadingFields :=
                st_leadingFields st ++ [{| field_name := name; field_value := value |}];
              st_tabs := st_tabs st;
              st_currentTab := st_currentTab st;
              st_seenFirstTrigger := st_seenFirstTrigger st |}
    end
  else Ok st.

(** [Array.prototype.forEach] with a callback that threads a state and may raise. *)
Fixpoint forEach {S : Type} (f : S → JsVal → Result S) (l : list JsVal) (st : S) : Result S :=
  match l with
  | [] => Ok st
  | x :: rest => st' ← f st x; forEach f rest st'
  end.

Definition initialState : GroupState :=
  {| st_leadingFields := []; st_tabs := []; st_currentTab := None;
     st_seenFirstTrigger := false |}.

Definition groupCustomFieldsIntoTabs (customFields : JsVal) : Result Partition :=
  let result := {| leadingFields := []; tabs := [] |} in
  match customFields with
  | JArr l =>
      if Nat.eqb (length l) 0 then Ok result
      else
        st ← forEach groupStep l initialState;
        Ok {| leadingFields := st_leadingFields st; tabs := st_tabs st |}
  | _ => Ok result
  end.

(** ** The document *)

(** Children of the product-info [<dl>]. *)
Inductive InfoNode :=
| InfoAnchor                          (* <dt id="product-leading-custom-fields-anchor"> *)
| Dt (className textContent : string)
| Dd (className innerHTML : string).

(** [<li class="tab"><a class="tab-title" href=...>...</a></li>]; [item_active]
    is the presence of the class [is-active] on the [<li>]. *)
Record TabItem := { item_href : string; item_html : string; item_active : bool }.

(** Children of [<ul class="tabs">]. *)
Inductive TabListNode :=
| TabsAnchor                          (* <li id="product-dynamic-cf-tabs-anchor"> *)
| TabLi (item : TabItem).

(** [<div class="tab-content" id=...>] holding one [<dl class="productView-info">]. *)
Record Panel := { panel_id : string; panel_rows : list InfoNode; panel_active : bool }.

(** Children of [<div class="tabs-contents">]. *)
Inductive ContentNode :=
| ContentAnchor                       (* <div id="product-dynamic-cf-content-anchor"> *)
| PanelDiv (panel : Panel).

(** Delegated listeners registered on [document]. *)
Inductive Listener := DynamicTabClick.

Record Document := {
  doc_info : list InfoNode;
  doc_tabList : list TabListNode;
  doc_tabContents : list ContentNode;
  doc_listeners : list Listener
}.

Definition isInfoAnchor (n : InfoNode) : bool :=
  match n with InfoAnchor => true | _ => false end.
Definition isTabsAnchor (n : TabListNode) : bool :=
  match n with TabsAnchor => true | _ => false end.
Definition isContentAnchor (n : ContentNode) : bool :=
  match n with ContentAnchor => true | _ => false end.

(** Lookup of an anchor by id among the nodes of its region: the first node
    that is the anchor, or nothing.  Elements that a browser parses out of
    value markup are no nodes of this model, so the answer is the browser's
    on pages whose value markup holds no element ([pageIsText] below). *)
Definition hasAnchor {A} (isAnchor : A → bool) (children : list A) : bool :=
  existsb isAnchor children.

(** [anchor.parentNode.insertBefore(frag, anchor)] and [$anchor.before(frag)]:
    the nodes of the fragment land, in order, just before the anchor. *)
Fixpoint insertBefore {A} (isAnchor : A → bool) (frag children : list A) : list A :=
  match children with
  | [] => []
  | c :: rest =>
      if isAnchor c then frag ++ c :: rest
      else c :: insertBefore isAnchor frag rest
  end.

(** ** The presenter *)

(** Serialisation of a text node, as [innerHTML] returns it. *)
Fixpoint escapeText (s : string) : string :=
  match s with
  | EmptyString => EmptyString
  | String c r =>
      let n := JsString.code c in
      (if Nat.eqb n 38 then "&amp;"
       else if Nat.eqb n 60 then "&lt;"
       else if Nat.eqb n 62 then "&gt;"
       else if Nat.eqb n 160 then "&nbsp;"
       else String c EmptyString) +:+ escapeText r
  end.

Definition escapeHtml (str : JsVal) : string :=
  match str with
  | JStr s => escapeText s
  | _ => ""
  end.

(** Assigning [v] to [innerHTML]: [null] becomes the empty string, anything
    else is converted with ToString. *)
Definition innerHTMLOf (v : JsVal) : Result string :=
  match v with
  | JNull => Ok ""
  | _ => Js.toString v
  end.

(** The [<dt>]/[<dd>] pair built for one field. *)
Definition fieldRows (field : Field) : Result (list InfoNode) :=
  n ← Js.toString (field_name field);
  v ← innerHTMLOf (field_value field);
  Ok [Dt "productView-info-name" (n +:+ ":"); Dd "productView-info-value" v].

Fixpoint fieldsFragment (fields : list Field) : Result (list InfoNode) :=
  match fields with
  | [] => Ok []
  | f :: rest => rows ← fieldRows f; more ← fieldsFragment rest; Ok (rows ++ more)
  end.

(** A presenter action runs against the document: it ends normally or raises,
    and in both cases leaves a document behind. *)
Definition Dom (A : Type) : Type := Document → Result A * Document.

Definition domBind {A B} (m : Dom A) (k : A → Dom B) : Dom B :=
  fun doc =>
    match m doc with
    | (Ok a, doc') => k a doc'
    | (Throw e, doc') => (Throw e, doc')
    end.

(** A computation that does not touch the document. *)
Definition domPure {A} (m : Result A) : Dom A := fun doc => (m, doc).

Definition domReturn : Dom unit := fun doc => (Ok (), doc).

Notation "'do' x <~ m ; k" := (domBind m (fun x => k))
  (at level 10, x name, m at level 100, k at level 200).

Definition injectLeadingCustomFields (leading : list Field) : Dom unit :=
  fun doc =>
    if Nat.eqb (length leading) 0 then (Ok (), doc)
    else if negb (hasAnchor isInfoAnchor (doc_info doc)) then (Ok (), doc)
    else
      match fieldsFragment leading with
      | Throw e => (Throw e, doc)
      | Ok frag =>
          (Ok (),
           {| doc_info := insertBefore isInfoAnchor frag (doc_info doc);
              doc_tabList := doc_tabList doc;
              doc_tabContents := doc_tabContents doc;
              doc_listeners := doc_listeners doc |})
      end.

(** [`tab-dynamic-${tab.slug}-${i}`] *)
Definition renderedId (slug : string) (i : nat) : string :=
  "tab-dynamic-" +:+ slug +:+ "-" +:+ JsString.ofNat i.

(** The two fragments built by the [tabs.forEach((tab, i) => ...)] loop,
    starting at index [i].  The markup assigned to [li.innerHTML] is kept as
    the link it parses to: the partitioner's slugs are made of [a-z0-9-], so
    the [href] attribute reads back unchanged. *)
Fixpoint tabFragments (i : nat) (ts : list Tab)
  : Result (list TabListNode * list ContentNode) :=
  match ts with
  | [] => Ok ([], [])
  | tab :: rest =>
      let id := renderedId (tab_slug tab) i in
      let li := TabLi {| item_href := "#" +:+ id;
                         item_html := escapeHtml (JStr (tab_label tab));
                         item_active := false |} in
      rows ← fieldsFragment (tab_fields tab);
      let div := PanelDiv {| panel_id := id; panel_rows := rows; panel_active := false |} in
      more ← tabFragments (S i) rest;
      Ok (li :: more.1, div :: more.2)
  end.

Definition injectDynamicTabs (ts : list Tab) : Dom unit :=
  fun doc =>
    if Nat.eqb (length ts) 0 then (Ok (), doc)
    else if negb (hasAnchor isTabsAnchor (doc_tabList doc))
            || negb (hasAnchor isContentAnchor (doc_tabContents doc))
    then (Ok (), doc)
    else
      match tabFragments 0 ts with
      | Throw e => (Throw e, doc)
      | Ok frags =>
          (Ok (),
           {| doc_info := doc_info doc;
              doc_tabList := insertBefore isTabsAnchor frags.1 (doc_tabList doc);
              doc_tabContents := insertBefore isContentAnchor frags.2 (doc_tabContents doc);
              doc_listeners := doc_listeners doc |})
      end.

(** [$(document).on('click', selector, handler)] *)
Definition bindDynamicTabClicks : Dom unit :=
  fun doc =>
    (Ok (),
     {| doc_info := doc_info doc;
        doc_tabList := doc_tabList doc;
        doc_tabContents := doc_tabContents doc;
        doc_listeners := doc_listeners doc ++ [DynamicTabClick] |}).

(** *** The delegated click handler *)

Definition isIdChar (c : ascii) : bool :=
  let n := JsString.code c in
  (Nat.leb 97 n && Nat.leb n 122) || (Nat.leb 65 n && Nat.leb n 90)
  || (Nat.leb 48 n && Nat.leb n 57) || Nat.eqb n 95 || Nat.eqb n 45.

Fixpoint allIdChars (s : string) : bool :=
  match s with
  | EmptyString => true
  | String c r => isIdChar c && allIdChars r
  end.

(** Selectors of the shape [#id], with [id] made of word characters and
    hyphens: jQuery answers them with [getElementById]. *)
Definition isIdSelector (sel : string) : bool :=
  match sel with
  | String c id =>
      Nat.eqb (JsString.code c) 35 && negb (JsString.isEmpty id) && allIdChars id
  | EmptyString => false
  end.

Definition fragmentOf (href : string) : string :=
  match href with String _ id => id | EmptyString => EmptyString end.

(** Position, among the children of the tab-content container, of the first
    panel carrying [id].  (The ids of the three anchors do not start with
    [tab-dynamic-], so they never answer the handler's lookup.)  This is the
    structural part of the lookup; [lookupById] below adds the elements that
    value markup may bring. *)
Fixpoint findPanel (id : string) (children : list ContentNode) : option nat :=
  match children with
  | [] => None
  | PanelDiv p :: rest =>
      if String.eqb (panel_id p) id then Some 0 else S <$> findPanel id rest
  | ContentAnchor :: rest => S <$> findPanel id rest
  end.

(** Markup that may hold an element holds a [<]; without one it parses to
    text only, so nothing in it can carry an id. *)
Fixpoint mayHoldElements (markup : string) : bool :=
  match markup with
  | EmptyString => false
  | String c r => Nat.eqb (JsString.code c) 60 || mayHoldElements r
  end.

(** The values shown in these rows are text only. *)
Definition rowsAreText (rows : list InfoNode) : bool :=
  forallb
    (fun n => match n with Dd _ html => negb (mayHoldElements html) | _ => true end)
    rows.

Definition labelsAreText (items : list TabListNode) : bool :=
  forallb
    (fun n =>
       match n with
       | TabLi item => negb (mayHoldElements (item_html item))
       | TabsAnchor => true
       end)
    items.

Definition panelIsText (n : ContentNode) : bool :=
  match n with
  | PanelDiv p => rowsAreText (panel_rows p)
  | ContentAnchor => true
  end.

Definition panelsAreText (children : list ContentNode) : bool :=
  forallb panelIsText children.

(** What [$('#id')], a lookup over the whole document, answers for an id of
    the dynamic family.  Field values are written with [innerHTML], so an
    element parsed from a value may carry the id and, standing earlier in the
    document, answer in place of a panel.  The lookup is therefore decided
    here only when the markup that can precede the answer is text: the rows
    of the info list, the labels, and the rows of the panels before the one
    found (of all panels, when none is found).  Otherwise the answer is the
    HTML parser's, [MaybeInMarkup]. *)
Inductive Target :=
| NoElement
| PanelAt (position : nat)
| MaybeInMarkup.

Definition lookupById (doc : Document) (id : string) : Target :=
  if rowsAreText (doc_info doc) && labelsAreText (doc_tabList doc) then
    match findPanel id (doc_tabContents doc) with
    | Some i =>
        if panelsAreText (take i (doc_tabContents doc)) then PanelAt i
        else MaybeInMarkup
    | None =>
        if panelsAreText (doc_tabContents doc) then NoElement else MaybeInMarkup
    end
  else MaybeInMarkup.

Definition setItemActive (b : bool) (n : TabListNode) : TabListNode :=
  match n with
  | TabLi item =>
      TabLi {| item_href := item_href item; item_html := item_html item; item_active := b |}
  | TabsAnchor => TabsAnchor
  end.

Definition setPanelActive (b : bool) (n : ContentNode) : ContentNode :=
  match n with
  | PanelDiv p =>
      PanelDiv {| panel_id := panel_id p; panel_rows := panel_rows p; panel_active := b |}
  | ContentAnchor => ContentAnchor
  end.

Inductive ClickOutcome :=
| NotDelegated                 (* the clicked element does not match the selector *)
| BeyondIdSelectors            (* [$(href)] would need the general selector engine *)
| BeyondValueMarkup            (* [$(href)] may be an element parsed from a field value *)
| Handled (doc : Document) (defaultPrevented : bool).

(** A click on the link of the [this]-th child of the tab list, dispatched to
    the handler registered by [bindDynamicTabClicks]. *)
Definition dynamicTabClick (doc : Document) (this : nat) : ClickOutcome :=
  match doc_tabList doc !! this with
  | Some (TabLi item) =>
      let href := item_href item in
      if negb (JsString.startsWith "#tab-dynamic-" href) then NotDelegated
      else if JsString.isEmpty href || String.eqb href "#" then Handled doc false
      else if negb (isIdSelector href) then BeyondIdSelectors
      else
        match lookupById doc (fragmentOf href) with
        | NoElement => Handled doc false
        | MaybeInMarkup => BeyondValueMarkup
        | PanelAt content =>
            Handled
              {| doc_info := doc_info doc;
                 doc_tabList :=
                   alter (setItemActive true) this
                     (setItemActive false <$> doc_tabList doc);
                 doc_tabContents :=
                   alter (setPanelActive true) content
                     (setPanelActive false <$> doc_tabContents doc);
                 doc_listeners := doc_listeners doc |}
              true
        end
  | _ => NotDelegated
  end.

(** ** The entry point *)

Definition initDynamicCustomFieldTabs (context : JsVal) : Dom unit :=
  if negb (Js.truthy context) then domReturn else
  do flag <~ domPure (Js.get context "productUseDynamicCustomFieldTabs");
  if negb (Js.truthy flag) then domReturn else
  do customFields <~ domPure (Js.get context "productCustomFields");
  if negb (Js.truthy customFields) then domReturn else
  do p <~ domPure (groupCustomFieldsIntoTabs customFields);
  do _ <~ injectLeadingCustomFields (leadingFields p);
  if Nat.ltb 0 (length (tabs p)) then
    do _ <~ injectDynamicTabs (tabs p);
    bindDynamicTabClicks
  else domReturn.

(** * Vocabulary of the specification

    What the specification calls an attribute, a usable name, a trigger
    sentinel and a normalised field, each read off the constants the
    [forEach] callback computes. *)

(** The callback's [name] for an entry; an entry it cannot read has none. *)
Definition attrName (field : JsVal) : JsVal :=
  match fieldName field with Ok n => n | Throw _ => JUndefined end.

(** The callback's [value] for an entry. *)
Definition attrValue (field : JsVal) : JsVal :=
  match fieldValue field with Ok v => v | Throw _ => JStr "" end.

(** The callback's [name] is truthy: [field.name] is truthy and, coerced to
    a string and trimmed, non-empty.  A name that is absent, [null], [false],
    [0], [NaN] or the empty string short-circuits the coercion and is not
    usable. *)
Definition usableName (field : JsVal) : bool := Js.truthy (attrName field).

Definition isTriggerField (field : JsVal) : bool :=
  match isNewTabTrigger (attrName field) with
  | Ok t => Js.truthy t
  | Throw _ => false
  end.

Definition isContentField (field : JsVal) : bool :=
  usableName field && negb (isTriggerField field).

(** The [{ name, value }] object the callback pushes for an entry. *)
Definition normalized (field : JsVal) : Field :=
  {| field_name := attrName field; field_value := attrValue field |}.

Definition stringifiable (v : JsVal) : bool := returns (Js.toString v).

Definition propOf (k : string) (v : JsVal) : JsVal :=
  match Js.get v k with Ok x => x | Throw _ => JUndefined end.

(** An entry the callback can process: anything but [null] and [undefined],
    whose [name] and [value], present or not, convert to strings without
    raising.  Every object [{ name, value }] whose name and value are strings,
    numbers, booleans, [null] or absent is one; so is one whose value is an
    array of such, or a plain object with no [toString] key. *)
Definition isAttributeEntry (v : JsVal) : bool :=
  negb (Js.isNullish v)
  && stringifiable (propOf "name" v) && stringifiable (propOf "value" v).

(** The two fields the entry point reads from its context. *)
Definition contextFlag (context : JsVal) : JsVal :=
  propOf "productUseDynamicCustomFieldTabs" context.

Definition contextList (context : JsVal) : JsVal :=
  propOf "productCustomFields" context.

Definition isEmptyArray (v : JsVal) : bool :=
  match v with JArr [] => true | _ => false end.

(** The activation flag is falsy, or the attribute list is falsy or absent,
    or empty, or not an array. *)
Definition inactive (context : JsVal) : bool :=
  negb (Js.truthy (contextFlag context))
  || negb (Js.truthy (contextList context))
  || isEmptyArray (contextList context)
  || negb (Js.isArray (contextList context)).

(** The attribute list, when it is an array, holds entries the callback can
    process. *)
Definition readableContext (context : JsVal) : bool :=
  match contextList context with
  | JArr l => forallb isAttributeEntry l
  | _ => true
  end.

(** A field as the partitioner leaves it: a non-empty trimmed name, and a
    value that is not [null] or [undefined]. *)
Definition normalField (f : Field) : Prop :=
  (∃ s, field_name f = JStr s ∧ s ≠ "" ∧ JsString.trim s = s)
  ∧ Js.isNullish (field_value f) = false.

(** A field the presenter can render without raising. *)
Definition renderable (f : Field) : Prop :=
  (∃ s, field_name f = JStr s) ∧ stringifiable (field_value f) = true.

Definition count {A} (p : A → bool) (l : list A) : nat := length (List.filter p l).

(** The name of an attribute, coerced to a string and trimmed, is non-empty:
    [String(field.name).trim() !== ''], with no test before the coercion. *)
Definition nameNonEmptyOnceCoerced (field : JsVal) : bool :=
  match Js.toString (propOf "name" field) with
  | Ok s => negb (JsString.isEmpty (JsString.trim s))
  | Throw _ => false
  end.

(** The name of an attribute is truthy and, coerced to a string and trimmed,
    non-empty. *)
Definition nameTruthyAndNonEmpty (field : JsVal) : bool :=
  Js.truthy (propOf "name" field) && nameNonEmptyOnceCoerced field.

(** [leadingFields], then each tab's [fields] in tab order. *)
Definition allFields (p : Partition) : list Field :=
  leadingFields p ++ concat (tab_fields <$> tabs p).

(** [sum(tab.fields.length)] *)
Definition tabFieldTotal (ts : list Tab) : nat :=
  sum_list_with (fun t => length (tab_fields t)) ts.

(** The slug as the specification words it: lowercase the label, turn each
    whitespace run into one hyphen, strip what is outside [a-z0-9-], and use
    the positional fallback only when nothing is left. *)
Definition slugOfLabel (label : string) (position : nat) : string :=
  let slug :=
    JsString.stripNonSlug (JsString.replaceWsRuns (JsString.toLowerCase label)) in
  if JsString.isEmpty slug then slugFallback position else slug.

(** The label as the specification words it. *)
Definition labelOfValue (v : string) : string :=
  if JsString.isEmpty (JsString.trim v) then "Details" else JsString.trim v.

(** Invariant of the callback's variables: [currentTab] refers to the tab
    pushed last, and [seenFirstTrigger] tells whether there is one. *)
Definition wfState (st : GroupState) : Prop :=
  (st_tabs st = [] ∧ st_currentTab st = None ∧ st_seenFirstTrigger st = false)
  ∨ (∃ ts t, st_tabs st = ts ++ [t]
             ∧ st_currentTab st = Some (length ts)
             ∧ st_seenFirstTrigger st = true).

Definition stateFields (st : GroupState) : list Field :=
  st_leadingFields st ++ concat (tab_fields <$> st_tabs st).

Definition tabHead (t : Tab) : string * string := (tab_label t, tab_slug t).

(** Label and slug of the tab a trigger entry opens at position [k]. *)
Definition headOfTrigger (k : nat) (field : JsVal) : string * string :=
  let label := match triggerLabel (attrValue field) with Ok l => l | Throw _ => "" end in
  (if JsString.isEmpty label then "Details" else label, slugify (JStr label) k).

Fixpoint headsFrom (k : nat) (triggers : list JsVal) : list (string * string) :=
  match triggers with
  | [] => []
  | x :: rest => headOfTrigger k x :: headsFrom (S k) rest
  end.

(** [{ name: n, value: v }] *)
Definition attr (n v : JsVal) : JsVal := JObj [("name", n); ("value", v)].

(** The worked example of the specification. *)
Definition exampleFields : list JsVal :=
  [ attr (JStr "Color") (JStr "Red");
    attr (JStr "__newtab") (JStr "Specs");
    attr (JStr "Weight") (JStr "2kg");
    attr (JStr "__NewTab") (JStr " ");
    attr (JStr "Note") (JStr "<b>hi</b>") ].

Definition exampleInput : JsVal := JArr exampleFields.

Definition examplePartition : Partition :=
  {| leadingFields := [ {| field_name := JStr "Color"; field_value := JStr "Red" |} ];
     tabs :=
       [ {| tab_label := "Specs"; tab_slug := "specs";
            tab_fields := [ {| field_name := JStr "Weight"; field_value := JStr "2kg" |} ] |};
         {| tab_label := "Details"; tab_slug := "tab-custom-1";
            tab_fields :=
              [ {| field_name := JStr "Note"; field_value := JStr "<b>hi</b>" |} ] |} ] |}.

(** Two triggers labelled alike. *)
Definition twoInfoTabs : list Tab :=
  [ {| tab_label := "Info"; tab_slug := "info"; tab_fields := [] |};
    {| tab_label := "Info"; tab_slug := "info"; tab_fields := [] |} ].

(** A host page with the three anchors in place. *)
Definition hostDoc : Document :=
  {| doc_info :=
       [ Dt "productView-info-name" "SKU:"; Dd "productView-info-value" "X1";
         InfoAnchor ];
     doc_tabList :=
       [ TabLi {| item_href := "#tab-description"; item_html := "Description";
                  item_active := true |};
         TabsAnchor ];
     doc_tabContents :=
       [ PanelDiv {| panel_id := "tab-description"; panel_rows := [];
                     panel_active := true |};
         ContentAnchor ];
     doc_listeners := [] |}.

(** [{ productUseDynamicCustomFieldTabs: flag, productCustomFields: list }] *)
Definition mkContext (flag list : JsVal) : JsVal :=
  JObj [("productUseDynamicCustomFieldTabs", flag); ("productCustomFields", list)].

(** What one complete run of the entry point does to a document that holds
    the three anchors: both fragments land before their anchors and one
    listener is registered. *)
Definition rendered (lead : list InfoNode)
    (frags : list TabListNode * list ContentNode) (doc : Document) : Document :=
  {| doc_info := insertBefore isInfoAnchor lead (doc_info doc);
     doc_tabList := insertBefore isTabsAnchor frags.1 (doc_tabList doc);
     doc_tabContents := insertBefore isContentAnchor frags.2 (doc_tabContents doc);
     doc_listeners := doc_listeners doc ++ [DynamicTabClick] |}.

Definition anchorsPresent (doc : Document) : bool :=
  hasAnchor isInfoAnchor (doc_info doc)
  && hasAnchor isTabsAnchor (doc_tabList doc)
  && hasAnchor isContentAnchor (doc_tabContents doc).

(** The host page after the worked example has been rendered into it. *)
Definition exampleDoc : Document :=
  (initDynamicCustomFieldTabs (mkContext (JBool true) exampleInput) hostDoc).2.

(** A page whose dynamic tab link points at a panel that is not there. *)
Definition orphanDoc : Document :=
  {| doc_info := [InfoAnchor];
     doc_tabList :=
       [ TabLi {| item_href := "#tab-dynamic-gone-0"; item_html := "Gone";
                  item_active := false |};
         TabsAnchor ];
     doc_tabContents := [ContentAnchor];
     doc_listeners := [DynamicTabClick] |}.

(** Digits only: the decimal rendering of an index has no hyphen in it. *)
Fixpoint hasHyphen (s : string) : bool :=
  match s with
  | EmptyString => false
  | String c r => Nat.eqb (JsString.code c) 45 || hasHyphen r
  end.

(** * Further vocabulary *)

(** Every code unit is in [a-z0-9-]. *)
Fixpoint allSlugChars (s : string) : bool :=
  match s with
  | EmptyString => true
  | String c r => JsString.isSlugChar c && allSlugChars r
  end.

(** The string holds a [<] or a [>]. *)
Fixpoint hasAngle (s : string) : bool :=
  match s with
  | EmptyString => false
  | String c r =>
      Nat.eqb (JsString.code c) 60 || Nat.eqb (JsString.code c) 62 || hasAngle r
  end.

(** The entries up to, and without, the next trigger. *)
Fixpoint untilTrigger (l : list JsVal) : list JsVal :=
  match l with
  | [] => []
  | x :: rest => if isTriggerField x then [] else x :: untilTrigger rest
  end.

(** The fields a run of entries contributes: one per usable name. *)
Definition fieldsOf (entries : list JsVal) : list Field :=
  normalized <$> List.filter usableName entries.

(** The tab a trigger opens at position [k], before any field is pushed. *)
Definition newTab (k : nat) (trigger : JsVal) : Tab :=
  {| tab_label := (headOfTrigger k trigger).1;
     tab_slug := (headOfTrigger k trigger).2;
     tab_fields := [] |}.

(** The tabs of a list, the first one at position [k]: each trigger opens a
    tab that holds the fields of the entries up to the next trigger. *)
Fixpoint tabsFrom (k : nat) (l : list JsVal) : list Tab :=
  match l with
  | [] => []
  | x :: rest =>
      if isTriggerField x
      then {| tab_label := tab_label (newTab k x);
              tab_slug := tab_slug (newTab k x);
              tab_fields := fieldsOf (untilTrigger rest) |} :: tabsFrom (S k) rest
      else tabsFrom k rest
  end.

(** Position of the first anchor among the children. *)
Fixpoint anchorIndex {A} (isAnchor : A → bool) (children : list A) : nat :=
  match children with
  | [] => 0
  | c :: rest => if isAnchor c then 0 else S (anchorIndex isAnchor rest)
  end.

(** No panel of the host page carries an id of the dynamic family. *)
Definition hostPanelsClear (doc : Document) : bool :=
  forallb
    (fun n =>
       match n with
       | PanelDiv p => negb (JsString.startsWith "tab-dynamic-" (panel_id p))
       | ContentAnchor => true
       end)
    (doc_tabContents doc).

(** Nothing was removed or reordered: every region of [doc] is found, in
    order, inside the same region of [doc']. *)
Definition grows (doc doc' : Document) : Prop :=
  doc_info doc `sublist_of` doc_info doc'
  ∧ doc_tabList doc `sublist_of` doc_tabList doc'
  ∧ doc_tabContents doc `sublist_of` doc_tabContents doc'
  ∧ doc_listeners doc `sublist_of` doc_listeners doc'.

(** The labels and panels built for [twoInfoTabs]. *)
Definition twoInfoFragments : list TabListNode * list ContentNode :=
  ( [ TabLi {| item_href := "#tab-dynamic-info-0"; item_html := "Info";
               item_active := false |};
      TabLi {| item_href := "#tab-dynamic-info-1"; item_html := "Info";
               item_active := false |} ],
    [ PanelDiv {| panel_id := "tab-dynamic-info-0"; panel_rows := [];
                  panel_active := false |};
      PanelDiv {| panel_id := "tab-dynamic-info-1"; panel_rows := [];
                  panel_active := false |} ] ).


(** All value markup in the page is text, so every id lookup of the script is
    answered by the nodes of the page themselves. *)
Definition pageIsText (doc : Document) : bool :=
  rowsAreText (doc_info doc) && labelsAreText (doc_tabList doc)
  && panelsAreText (doc_tabContents doc).

(** The value of the field, as [innerHTML] takes it, is text. *)
Definition plainField (f : Field) : bool :=
  match innerHTMLOf (field_value f) with
  | Ok html => negb (mayHoldElements html)
  | Throw _ => true
  end.

(** The worked example with its one marked-up value made plain. *)
Definition plainExampleFields : list JsVal :=
  [ attr (JStr "Color") (JStr "Red");
    attr (JStr "__newtab") (JStr "Specs");
    attr (JStr "Weight") (JStr "2kg");
    attr (JStr "__NewTab") (JStr " ");
    attr (JStr "Note") (JStr "hi") ].

Definition plainExamplePartition : Partition :=
  {| leadingFields := [ {| field_name := JStr "Color"; field_value := JStr "Red" |} ];
     tabs :=
       [ {| tab_label := "Specs"; tab_slug := "specs";
            tab_fields := [ {| field_name := JStr "Weight"; field_value := JStr "2kg" |} ] |};
         {| tab_label := "Details"; tab_slug := "tab-custom-1";
            tab_fields := [ {| field_name := JStr "Note"; field_value := JStr "hi" |} ] |} ] |}.

(** A page without any of the three anchors. *)
Definition bareDoc : Document :=
  {| doc_info := [ Dt "productView-info-name" "SKU:"; Dd "productView-info-value" "X1" ];
     doc_tabList :=
       [ TabLi {| item_href := "#tab-description"; item_html := "Description";
                  item_active := true |} ];
     doc_tabContents :=
       [ PanelDiv {| panel_id := "tab-description"; panel_rows := [];
                     panel_active := true |} ];
     doc_listeners := [] |}.


(** * Properties *)

(** ** Strings *)

Section StringFacts.
Import JsString.

Lemma isWhiteSpace_toLowerChar c : isWhiteSpace (toLowerChar c) = isWhiteSpace c.
Proof. destruct c as [[] [] [] [] [] [] [] []]; reflexivity. Qed.

Lemma trimStart_toLowerCase s : trimStart (toLowerCase s) = toLowerCase (trimStart s).
Proof.
  induction s as [|c r IH]; simpl; [done|].
  rewrite isWhiteSpace_toLowerChar. by destruct (isWhiteSpace c).
Qed.

Lemma trimEnd_toLowerCase s : trimEnd (toLowerCase s) = toLowerCase (trimEnd s).
Proof.
  induction s as [|c r IH]; simpl; [done|].
  rewrite IH, isWhiteSpace_toLowerChar.
  destruct (trimEnd r); simpl; [by destruct (isWhiteSpace c)|done].
Qed.

Lemma trim_toLowerCase s : trim (toLowerCase s) = toLowerCase (trim s).
Proof. unfold trim. by rewrite trimStart_toLowerCase, trimEnd_toLowerCase. Qed.

Lemma trimStart_head s :
  match trimStart s with
  | EmptyString => True
  | String c _ => isWhiteSpace c = false
  end.
Proof.
  induction s as [|c r IH]; simpl; [done|].
  destruct (isWhiteSpace c) eqn:E; [done|]. simpl. done.
Qed.

Lemma trimEnd_cons_nonempty c r c' r' :
  trimEnd r = String c' r' → trimEnd (String c r) = String c (String c' r').
Proof. intros H. simpl. by rewrite H. Qed.

Lemma trimEnd_idem s : trimEnd (trimEnd s) = trimEnd s.
Proof.
  induction s as [|c r IH]; simpl; [done|].
  destruct (trimEnd r) as [|c' r'] eqn:E.
  - destruct (isWhiteSpace c) eqn:Ec; simpl; [done|]. by rewrite Ec.
  - apply (trimEnd_cons_nonempty c) in IH. exact IH.
Qed.

Lemma trimEnd_keeps_head c r :
  isWhiteSpace c = false → trimEnd (String c r) = String c (trimEnd r).
Proof. intros Hc. simpl. rewrite Hc. by destruct (trimEnd r). Qed.

Lemma trimStart_trim s : trimStart (trim s) = trim s.
Proof.
  unfold trim. pose proof (trimStart_head s) as H.
  destruct (trimStart s) as [|c r]; [done|].
  rewrite trimEnd_keeps_head by done. simpl. by rewrite H.
Qed.

Lemma trim_idem s : trim (trim s) = trim s.
Proof.
  unfold trim at 1. rewrite trimStart_trim. unfold trim. apply trimEnd_idem.
Qed.

Lemma hasHyphen_uint d : hasHyphen (NilEmpty.string_of_uint d) = false.
Proof. induction d; simpl; auto. Qed.

Lemma hasHyphen_ofNat n : hasHyphen (ofNat n) = false.
Proof.
  unfold ofNat, NilZero.string_of_uint.
  destruct (Nat.to_uint n) eqn:E; try apply hasHyphen_uint. reflexivity.
Qed.

Lemma ofNat_inj n m : ofNat n = ofNat m → n = m.
Proof.
  unfold ofNat. intros H.
  assert (∀ k, Nat.to_uint k ≠ Decimal.Nil) as Hnil.
  { intros k. rewrite <- (DecimalNat.Unsigned.of_to k) at 1.
    rewrite DecimalNat.Unsigned.to_of. apply DecimalFacts.unorm_nonnil. }
  assert (Nat.to_uint n = Nat.to_uint m) as Hu.
  { apply (f_equal NilZero.uint_of_string) in H.
    rewrite !NilZero.usu in H by apply Hnil. congruence. }
  apply (f_equal Nat.of_uint) in Hu.
  by rewrite !DecimalNat.Unsigned.of_to in Hu.
Qed.

Lemma append_nil_l s : "" +:+ s = s.
Proof. reflexivity. Qed.

Lemma append_cons c a s : String c a +:+ s = String c (a +:+ s).
Proof. reflexivity. Qed.

Lemma hasHyphen_app a b : hasHyphen (a +:+ String "-" b) = true.
Proof.
  induction a as [|c r IH]; [done|].
  rewrite append_cons. cbn [hasHyphen]. rewrite IH. apply orb_true_r.
Qed.

(** A string splits in one way only around its last hyphen. *)
Lemma split_last_hyphen a b x y :
  hasHyphen x = false → hasHyphen y = false →
  a +:+ String "-" x = b +:+ String "-" y → a = b ∧ x = y.
Proof.
  intros Hx Hy. revert b.
  induction a as [|c a IH]; intros [|c' b] H;
    rewrite ?append_nil_l, ?append_cons in H.
  - by injection H.
  - injection H as _ Ht. rewrite Ht, hasHyphen_app in Hx. done.
  - injection H as _ Ht. rewrite <- Ht, hasHyphen_app in Hy. done.
  - injection H as -> Ht. destruct (IH _ Ht) as [-> ->]. done.
Qed.

End StringFacts.

(** ** The partitioner *)

Section Partitioner.

Lemma bind_Ok {A B} (a : A) (k : A → Result B) : (x ← Ok a; k x) = k a.
Proof. reflexivity. Qed.

Lemma stringifiable_Ok v : stringifiable v = true → ∃ s, Js.toString v = Ok s.
Proof. unfold stringifiable. destruct (Js.toString v); [eauto|done]. Qed.

Lemma get_not_nullish v k : Js.isNullish v = false → Js.get v k = Ok (propOf k v).
Proof. by destruct v. Qed.

Lemma isAttributeEntry_inv x :
  isAttributeEntry x = true →
  Js.isNullish x = false
  ∧ stringifiable (propOf "name" x) = true
  ∧ stringifiable (propOf "value" x) = true.
Proof.
  unfold isAttributeEntry. intros [[H1 H2]%andb_true_iff H3]%andb_true_iff.
  by apply negb_true_iff in H1.
Qed.

(** What the callback reads off an entry. *)
Lemma fieldName_attribute x :
  isAttributeEntry x = true →
  ∃ n, fieldName x = Ok n
       ∧ (Js.truthy n = true → ∃ s, n = JStr s ∧ JsString.trim s = s).
Proof.
  intros (Hx & Hn & _)%isAttributeEntry_inv.
  unfold fieldName. rewrite (get_not_nullish _ _ Hx), bind_Ok.
  destruct (Js.truthy (propOf "name" x)) eqn:Et.
  - destruct (stringifiable_Ok _ Hn) as [s ->]. rewrite bind_Ok.
    eexists; split; [done|]. intros _. eexists; split; [done|]. apply trim_idem.
  - eexists; split; [done|]. intros H. congruence.
Qed.

Lemma fieldValue_attribute x :
  isAttributeEntry x = true →
  ∃ v, fieldValue x = Ok v ∧ stringifiable v = true ∧ Js.isNullish v = false.
Proof.
  intros (Hx & _ & Hv)%isAttributeEntry_inv.
  unfold fieldValue. rewrite (get_not_nullish _ _ Hx), bind_Ok.
  destruct (Js.isNullish (propOf "value" x)) eqn:En; eexists; split; try done.
Qed.

(** A [null] or absent value is read as the empty string. *)
Lemma attrValue_nullish x :
  Js.isNullish x = false → Js.isNullish (propOf "value" x) = true →
  attrValue x = JStr "".
Proof.
  intros Hx Hv. unfold attrValue, fieldValue.
  by rewrite (get_not_nullish _ _ Hx), bind_Ok, Hv.
Qed.

Lemma triggerLabel_Ok v : stringifiable v = true → ∃ l, triggerLabel v = Ok l.
Proof.
  intros H. destruct v; simpl; eauto; try (destruct b; eauto);
    apply (stringifiable_Ok _ H).
Qed.

Lemma isNewTabTrigger_name n :
  (Js.truthy n = true → ∃ s, n = JStr s) →
  ∃ t, isNewTabTrigger n = Ok t ∧ (Js.truthy t = true → Js.truthy n = true).
Proof.
  intros H. unfold isNewTabTrigger. destruct (Js.truthy n) eqn:E.
  - destruct H as [s ->]; [done|]. simpl. eauto.
  - eexists; split; [done|]. congruence.
Qed.

(** On a string name the callback's tests are the specification's words:
    usable means non-empty once trimmed, and a trigger is a name that, trimmed
    and lowercased, is the reserved token. *)
Lemma attrName_string props s :
  Js.lookupOwn "name" props = Some (JStr s) →
  attrName (JObj props) = JStr (JsString.trim s).
Proof.
  intros H. unfold attrName, fieldName. cbn [Js.get]. rewrite H.
  by destruct s.
Qed.

Lemma usableName_string props s :
  Js.lookupOwn "name" props = Some (JStr s) →
  usableName (JObj props) = negb (JsString.isEmpty (JsString.trim s)).
Proof. intros H. unfold usableName. by rewrite (attrName_string _ _ H). Qed.

Lemma isTriggerField_string props s :
  Js.lookupOwn "name" props = Some (JStr s) →
  isTriggerField (JObj props)
  = String.eqb (JsString.toLowerCase (JsString.trim s)) NEWTAB_TRIGGER_NAME.
Proof.
  intros H. unfold isTriggerField, isNewTabTrigger.
  rewrite (attrName_string _ _ H). cbn [Js.truthy Js.toString].
  destruct (JsString.trim s) as [|c t] eqn:E; [done|].
  cbn [JsString.isEmpty negb]. rewrite bind_Ok. cbn [Js.truthy].
  by rewrite <- E, trim_idem.
Qed.

(** A push through the reference to the last tab. *)
Lemma alter_last {A} (f : A → A) (l : list A) (a : A) :
  alter f (length l) (l ++ [a]) = l ++ [f a].
Proof.
  replace (length l) with (length l + 0) by lia. by rewrite alter_app_r.
Qed.

(** One run of the callback on an attribute object. *)
Lemma groupStep_spec st x :
  isAttributeEntry x = true → wfState st →
  ∃ st', groupStep st x = Ok st' ∧ wfState st'
    ∧ stateFields st'
      = stateFields st ++ (if isContentField x then [normalized x] else [])
    ∧ tabHead <$> st_tabs st'
      = (tabHead <$> st_tabs st)
        ++ (if isTriggerField x then [headOfTrigger (length (st_tabs st)) x] else []).
Proof.
  intros Hx Hwf.
  destruct (fieldName_attribute x Hx) as (n & Hn & Hstr).
  destruct (fieldValue_attribute x Hx) as (v & Hv & Hsv & Hnn).
  destruct (isNewTabTrigger_name n) as (t & Ht & Htn).
  { intros H. destruct (Hstr H) as (s & -> & _). eauto. }
  unfold groupStep, isContentField, usableName, isTriggerField, normalized,
    headOfTrigger, attrName, attrValue, stateFields.
  rewrite Hn, Hv, !bind_Ok, Ht, bind_Ok.
  destruct (Js.truthy t) eqn:Et.
  - destruct (triggerLabel_Ok v Hsv) as [l Hl]. rewrite Hl, bind_Ok.
    eexists; split; [done|]. cbn [st_tabs st_leadingFields]. split; [|split].
    + right. by eexists _, _.
    + rewrite fmap_app, concat_app, andb_false_r. cbn.
      by rewrite !app_nil_r.
    + by rewrite fmap_app.
  - rewrite andb_true_r. destruct (Js.truthy n) eqn:En.
    + destruct Hwf as [(Hts & Hc & Hs)|(ts & t0 & Hts & Hc & Hs)];
        rewrite Hs, Hc; eexists; (split; [done|]);
        cbn [st_tabs st_leadingFields]; rewrite Hts.
      * split; [by left|]. cbn. rewrite !app_nil_r. done.
      * rewrite !alter_last. split; [|split].
        -- right. by eexists _, _.
        -- rewrite !fmap_app, !concat_app. cbn.
           by rewrite !app_nil_r, !app_assoc.
        -- by rewrite !fmap_app, app_nil_r.
    + eexists; split; [done|]. by rewrite !app_nil_r.
Qed.

Lemma forEach_groupStep l : ∀ st,
  forallb isAttributeEntry l = true → wfState st →
  ∃ st', forEach groupStep l st = Ok st' ∧ wfState st'
    ∧ stateFields st'
      = stateFields st ++ (normalized <$> List.filter isContentField l)
    ∧ tabHead <$> st_tabs st'
      = (tabHead <$> st_tabs st)
        ++ headsFrom (length (st_tabs st)) (List.filter isTriggerField l).
Proof.
  induction l as [|x l IH]; intros st Hl Hwf; simpl in *.
  - eexists; split; [done|]. by rewrite !app_nil_r.
  - apply andb_true_iff in Hl as [Hx Hl].
    destruct (groupStep_spec st x Hx Hwf) as (st1 & -> & Hwf1 & Hf1 & Hh1).
    simpl.
    destruct (IH st1 Hl Hwf1) as (st' & -> & Hwf' & Hf' & Hh').
    eexists; split; [done|]. split; [done|].
    rewrite Hf', Hf1, Hh', Hh1.
    assert (length (st_tabs st1)
            = length (st_tabs st) + (if isTriggerField x then 1 else 0)) as Hlen.
    { rewrite <- (length_fmap tabHead (st_tabs st1)), Hh1, length_app, length_fmap.
      by destruct (isTriggerField x). }
    rewrite Hlen. unfold isContentField in *.
    destruct (isTriggerField x), (usableName x); simpl;
      rewrite ?app_nil_r, ?Nat.add_0_r, <- ?app_assoc; simpl;
      rewrite ?Nat.add_1_r; done.
Qed.

Lemma groupCustomFieldsIntoTabs_spec l :
  forallb isAttributeEntry l = true →
  ∃ r, groupCustomFieldsIntoTabs (JArr l) = Ok r
    ∧ allFields r = normalized <$> List.filter isContentField l
    ∧ tabHead <$> tabs r = headsFrom 0 (List.filter isTriggerField l).
Proof.
  intros Hl. unfold groupCustomFieldsIntoTabs.
  destruct (Nat.eqb (length l) 0) eqn:E.
  - apply Nat.eqb_eq, nil_length_inv in E. subst l. by eexists.
  - destruct (forEach_groupStep l initialState Hl) as (st & -> & _ & Hf & Hh).
    { by left. }
    rewrite bind_Ok. eexists; split; [done|]. by split.
Qed.

Lemma length_headsFrom k xs : length (headsFrom k xs) = length xs.
Proof. revert k. induction xs; intros k; simpl; [done|by rewrite IHxs]. Qed.

Lemma lookup_headsFrom j xs k :
  headsFrom j xs !! k = headOfTrigger (j + k) <$> xs !! k.
Proof.
  revert j k. induction xs as [|x xs IH]; intros j [|k]; simpl; try done.
  - by rewrite Nat.add_0_r.
  - rewrite IH. by replace (S j + k) with (j + S k) by lia.
Qed.

Lemma length_allFields r :
  length (allFields r) = length (leadingFields r) + tabFieldTotal (tabs r).
Proof.
  unfold allFields, tabFieldTotal. rewrite length_app. f_equal.
  induction (tabs r) as [|t ts IH]; simpl; [done|].
  rewrite length_app. f_equal. exact IH.
Qed.

(** A trigger sentinel has a usable name. *)
Lemma isTriggerField_usable x : isTriggerField x = true → usableName x = true.
Proof.
  unfold isTriggerField, usableName, isNewTabTrigger.
  destruct (Js.truthy (attrName x)) eqn:E; [done|]. by rewrite E.
Qed.

Lemma count_usable l :
  count isContentField l + count isTriggerField l = count usableName l.
Proof.
  unfold count, isContentField. induction l as [|x l IH]; simpl; [done|].
  pose proof (isTriggerField_usable x) as H.
  destruct (isTriggerField x), (usableName x); simpl in *; try lia.
  all: by specialize (H eq_refl).
Qed.

(** The slug computed in the callback is the specification's recipe applied
    to the trimmed trigger value, the label before its default is applied. *)
Lemma slugify_trimmed v k :
  slugify (JStr (JsString.trim v)) k = slugOfLabel (JsString.trim v) k.
Proof.
  unfold slugify, slugOfLabel. by rewrite trim_toLowerCase, trim_idem.
Qed.

(** Normalisation changes nothing in an attribute whose name is a trimmed
    string and whose value is a string. *)
Lemma normalized_wellformed n v :
  JsString.trim n = n →
  normalized (attr (JStr n) (JStr v))
  = {| field_name := JStr n; field_value := JStr v |}.
Proof.
  intros Hn. unfold normalized, attrName, attrValue, fieldName, fieldValue, attr.
  cbn. destruct n; cbn; [done|]. cbn in Hn. by rewrite Hn.
Qed.

End Partitioner.

(** On an entry the callback can read, its [name] is truthy exactly when the
    entry's name is truthy and non-empty once coerced and trimmed. *)
Lemma usableName_worded x :
  isAttributeEntry x = true → usableName x = nameTruthyAndNonEmpty x.
Proof.
  unfold isAttributeEntry, stringifiable, returns.
  intros [[Hx Hn]%andb_true_iff _]%andb_true_iff.
  unfold usableName, nameTruthyAndNonEmpty, nameNonEmptyOnceCoerced, attrName, fieldName.
  assert (Js.get x "name" = Ok (propOf "name" x)) as ->.
  { unfold propOf. by destruct x. }
  rewrite bind_Ok.
  destruct (Js.truthy (propOf "name" x)) eqn:Ht; [|by rewrite Ht].
  destruct (Js.toString (propOf "name" x)) as [s|]; [|done].
  by rewrite bind_Ok.
Qed.

Lemma count_ext {A} (p q : A → bool) (l : list A) :
  Forall (fun x => p x = q x) l → count p l = count q l.
Proof.
  unfold count. induction 1 as [|x l Hx _ IH]; [done|].
  cbn. rewrite Hx. destruct (q x); cbn; by rewrite IH.
Qed.

(** C1, as stated, fails: the name [0] is non-empty once coerced to a string
    and trimmed (it reads "0"), yet the callback tests the name before it
    coerces it, finds it falsy and puts the entry in no destination.  The
    partition is empty while the count of the claim is one. *)
Lemma C1_zero_name_counted_nowhere :
  let l := [attr (JNum "0") (JStr "z")] in
  forallb isAttributeEntry l = true
  ∧ groupCustomFieldsIntoTabs (JArr l) = Ok {| leadingFields := []; tabs := [] |}
  ∧ count isTriggerField l = 0
  ∧ count nameNonEmptyOnceCoerced l = 1.
Proof. by repeat split. Qed.

(** C1.  For every array of attribute entries the partitioner returns, and
    the number of leading fields, plus the fields of all tabs, plus the
    trigger sentinels (one tab each) is the number of entries whose name is
    truthy and, coerced to a string and trimmed, non-empty.  Entries whose
    name is absent, [null], [false], [0], [NaN] or blank are counted
    nowhere. *)
Theorem C1_field_count (l : list JsVal) :
  forallb isAttributeEntry l = true →
  ∃ r, groupCustomFieldsIntoTabs (JArr l) = Ok r
    ∧ length (tabs r) = count isTriggerField l
    ∧ length (leadingFields r) + tabFieldTotal (tabs r) + count isTriggerField l
      = count nameTruthyAndNonEmpty l.
Proof.
  intros Hl.
  destruct (groupCustomFieldsIntoTabs_spec l Hl) as (r & Hr & Hf & Hh).
  exists r. split; [done|].
  apply (f_equal length) in Hf, Hh.
  rewrite length_allFields, length_fmap in Hf.
  rewrite length_fmap, length_headsFrom in Hh.
  split; [done|].
  rewrite Hf, <- (count_ext usableName nameTruthyAndNonEmpty), <- count_usable; [done|].
  clear -Hl. induction l as [|x l IH]; [constructor|].
  cbn [forallb] in Hl. apply andb_true_iff in Hl as [Hx Hl].
  constructor; [by apply usableName_worded|by apply IH].
Qed.

Lemma C1_field_count_witness :
  forallb isAttributeEntry exampleFields = true
  ∧ ∃ r, groupCustomFieldsIntoTabs (JArr exampleFields) = Ok r
      ∧ length (tabs r) = count isTriggerField exampleFields
      ∧ length (leadingFields r) + tabFieldTotal (tabs r)
        + count isTriggerField exampleFields
        = count nameTruthyAndNonEmpty exampleFields.
Proof. split; [reflexivity|]. apply (C1_field_count exampleFields). reflexivity. Defined.

(** C2.  For every array of attribute entries, [leadingFields] followed by
    each tab's [fields] in tab order is the list of the entries that have a
    usable name and are no trigger, in input order, each as the
    [{ name, value }] object the callback builds for it (by
    [normalized_wellformed], the attribute itself when its name is a trimmed
    string and its value a string). *)
Theorem C2_stable_order (l : list JsVal) :
  forallb isAttributeEntry l = true →
  ∃ r, groupCustomFieldsIntoTabs (JArr l) = Ok r
    ∧ leadingFields r ++ concat (tab_fields <$> tabs r)
      = normalized <$> List.filter isContentField l.
Proof.
  intros Hl.
  destruct (groupCustomFieldsIntoTabs_spec l Hl) as (r & Hr & Hf & _).
  by exists r.
Qed.

Lemma C2_stable_order_witness :
  forallb isAttributeEntry exampleFields = true
  ∧ ∃ r, groupCustomFieldsIntoTabs (JArr exampleFields) = Ok r
      ∧ leadingFields r ++ concat (tab_fields <$> tabs r)
        = normalized <$> List.filter isContentField exampleFields.
Proof. split; [reflexivity|]. apply (C2_stable_order exampleFields). reflexivity. Defined.

(** C3, as stated, fails: a trigger with a blank value opens a tab labelled
    "Details" whose slug is the positional fallback, not "details", the slug
    of that label. *)
Lemma C3_slug_of_defaulted_label :
  ∃ tab,
    groupCustomFieldsIntoTabs (JArr [attr (JStr "__newtab") (JStr " ")])
    = Ok {| leadingFields := []; tabs := [tab] |}
    ∧ tab_label tab = "Details"
    ∧ tab_slug tab = "tab-custom-0"
    ∧ slugOfLabel (tab_label tab) 0 = "details"
    ∧ tab_slug tab ≠ slugOfLabel (tab_label tab) 0.
Proof. eexists. repeat split. vm_compute. discriminate. Qed.

(** C3, amended.  The [k]-th tab comes from the [k]-th trigger of the input.
    When that trigger's value is a string (a [null] or absent value counts as
    the empty string), the tab's label is the value trimmed, or "Details" when
    that is empty, and the tab's slug is the recipe applied to the trimmed
    value, that is to the label before the default is applied: lowercase,
    whitespace runs to single hyphens, strip what is outside [a-z0-9-], and
    [tab-custom-k] when nothing is left. *)
Theorem C3_label_and_slug (l : list JsVal) (r : Partition) (k : nat) (tab : Tab) :
  forallb isAttributeEntry l = true →
  groupCustomFieldsIntoTabs (JArr l) = Ok r →
  tabs r !! k = Some tab →
  ∃ x, List.filter isTriggerField l !! k = Some x
    ∧ ∀ v, attrValue x = JStr v →
        tab_label tab = labelOfValue v
        ∧ tab_slug tab = slugOfLabel (JsString.trim v) k.
Proof.
  intros Hl Hr Hk.
  destruct (groupCustomFieldsIntoTabs_spec l Hl) as (r' & Hr' & _ & Hh).
  assert (r' = r) as -> by congruence.
  apply (f_equal (fun hs => hs !! k)) in Hh.
  rewrite list_lookup_fmap, Hk, lookup_headsFrom in Hh.
  destruct (List.filter isTriggerField l !! k) as [x|]; [|done].
  exists x. split; [done|]. intros v Hv.
  assert (tabHead tab = headOfTrigger k x) as Hhead by (cbn in Hh; congruence).
  unfold tabHead, headOfTrigger in Hhead. rewrite Hv in Hhead.
  cbn [triggerLabel] in Hhead. apply pair_equal_spec in Hhead as [-> ->].
  split; [done|]. apply slugify_trimmed.
Qed.

Lemma C3_label_and_slug_witness :
  ∃ x, List.filter isTriggerField exampleFields !! 1 = Some x
    ∧ ∀ v, attrValue x = JStr v →
        "Details" = labelOfValue v
        ∧ "tab-custom-1" = slugOfLabel (JsString.trim v) 1.
Proof.
  apply (C3_label_and_slug exampleFields examplePartition 1
           {| tab_label := "Details"; tab_slug := "tab-custom-1";
              tab_fields :=
                [ {| field_name := JStr "Note"; field_value := JStr "<b>hi</b>" |} ] |});
    reflexivity.
Defined.

(** C5.  The worked example: one leading field, then the tabs "Specs" and
    "Details"; [__NewTab] is recognised as a trigger, and its blank value
    yields the default label. *)
Theorem C5_worked_example :
  groupCustomFieldsIntoTabs exampleInput = Ok examplePartition
  ∧ leadingFields examplePartition
    = [ {| field_name := JStr "Color"; field_value := JStr "Red" |} ]
  ∧ (fun t => (tab_label t, tab_fields t)) <$> tabs examplePartition
    = [ ("Specs", [ {| field_name := JStr "Weight"; field_value := JStr "2kg" |} ]);
        ("Details", [ {| field_name := JStr "Note"; field_value := JStr "<b>hi</b>" |} ]) ].
Proof. repeat split. Qed.



(** ** Rendered identifiers *)

Lemma append_inj_l p a b : p +:+ a = p +:+ b → a = b.
Proof.
  induction p as [|c p IH]; [done|].
  rewrite !append_cons. intros H. injection H as H. auto.
Qed.

Lemma renderedId_inj slug1 slug2 i j :
  renderedId slug1 i = renderedId slug2 j → slug1 = slug2 ∧ i = j.
Proof.
  unfold renderedId. intros H%append_inj_l.
  change (slug1 +:+ String "-" (JsString.ofNat i)
          = slug2 +:+ String "-" (JsString.ofNat j)) in H.
  apply split_last_hyphen in H as [-> H]; auto using hasHyphen_ofNat.
  by apply ofNat_inj in H.
Qed.

(** What [injectDynamicTabs] builds carries, for the tab at position [i], the
    identifier [renderedId slug i], on the panel and in the link. *)
Lemma tabFragments_ids ts : ∀ i frags,
  tabFragments i ts = Ok frags →
  frags.2
  = imap (fun k t =>
            PanelDiv {| panel_id := renderedId (tab_slug t) (i + k);
                        panel_rows :=
                          match fieldsFragment (tab_fields t) with
                          | Ok rows => rows | Throw _ => []
                          end;
                        panel_active := false |}) ts
  ∧ frags.1
    = imap (fun k t =>
              TabLi {| item_href := "#" +:+ renderedId (tab_slug t) (i + k);
                       item_html := escapeHtml (JStr (tab_label t));
                       item_active := false |}) ts.
Proof.
  induction ts as [|t ts IH]; intros i frags H; cbn [tabFragments] in H.
  - by injection H as <-.
  - destruct (fieldsFragment (tab_fields t)) as [rows|] eqn:Er; [|done].
    rewrite bind_Ok in H.
    destruct (tabFragments (S i) ts) as [more|] eqn:Em; [|done].
    rewrite bind_Ok in H. injection H as <-.
    destruct (IH (S i) more Em) as [H2 H1]. cbn [fst snd imap].
    rewrite H1, H2, Er, Nat.add_0_r. split; f_equal.
    all: apply imap_ext; intros k t' _; unfold compose;
      by replace (i + S k) with (S i + k) by lia.
Qed.

(** C4.  Two tabs at distinct positions of a tab sequence get distinct
    rendered identifiers [tab-dynamic-<slug>-<position>], whatever their slugs
    are, equal ones included. *)
Theorem C4_rendered_ids_distinct (ts : list Tab) (i j : nat) (ti tj : Tab) :
  ts !! i = Some ti → ts !! j = Some tj → i ≠ j →
  renderedId (tab_slug ti) i ≠ renderedId (tab_slug tj) j.
Proof. intros _ _ Hij H. apply renderedId_inj in H as [_ H]. done. Qed.

Lemma C4_rendered_ids_distinct_witness :
  tab_slug {| tab_label := "Info"; tab_slug := "info"; tab_fields := [] |}
  = tab_slug {| tab_label := "Info"; tab_slug := "info"; tab_fields := [] |}
  ∧ renderedId "info" 0 ≠ renderedId "info" 1.
Proof.
  split; [reflexivity|].
  apply (C4_rendered_ids_distinct twoInfoTabs 0 1
           {| tab_label := "Info"; tab_slug := "info"; tab_fields := [] |}
           {| tab_label := "Info"; tab_slug := "info"; tab_fields := [] |});
    [reflexivity|reflexivity|lia].
Defined.

(** ** The presenter and the entry point *)

Section Presenter.

Lemma domBind_pure_Ok {A B} (a : A) (k : A → Dom B) doc :
  domBind (domPure (Ok a)) k doc = k a doc.
Proof. reflexivity. Qed.

Lemma truthy_not_nullish v : Js.truthy v = true → Js.isNullish v = false.
Proof. by destruct v. Qed.

(** Past its guard on [context], the entry point reads the two fields. *)
Lemma init_unfold context doc :
  Js.truthy context = true →
  initDynamicCustomFieldTabs context doc
  = if negb (Js.truthy (contextFlag context)) then (Ok (), doc)
    else if negb (Js.truthy (contextList context)) then (Ok (), doc)
    else
      (do p <~ domPure (groupCustomFieldsIntoTabs (contextList context));
       do _ <~ injectLeadingCustomFields (leadingFields p);
       if Nat.ltb 0 (length (tabs p)) then
         do _ <~ injectDynamicTabs (tabs p);
         bindDynamicTabClicks
       else domReturn) doc.
Proof.
  intros Hc. unfold initDynamicCustomFieldTabs, contextFlag, contextList.
  rewrite Hc. cbn [negb].
  rewrite !(get_not_nullish context) by by apply truthy_not_nullish.
  rewrite domBind_pure_Ok.
  destruct (Js.truthy (propOf "productUseDynamicCustomFieldTabs" context)); [|done].
  cbn [negb]. rewrite domBind_pure_Ok.
  by destruct (Js.truthy (propOf "productCustomFields" context)).
Qed.

Lemma group_nothing_to_do v :
  isEmptyArray v || negb (Js.isArray v) = true →
  groupCustomFieldsIntoTabs v = Ok {| leadingFields := []; tabs := [] |}.
Proof. destruct v as [| | | | |[|x l]|]; done. Qed.

Lemma injectLeading_frame fs doc :
  let doc' := (injectLeadingCustomFields fs doc).2 in
  doc_tabList doc' = doc_tabList doc
  ∧ doc_tabContents doc' = doc_tabContents doc
  ∧ doc_listeners doc' = doc_listeners doc.
Proof.
  unfold injectLeadingCustomFields.
  destruct (Nat.eqb (length fs) 0); [done|].
  destruct (negb (hasAnchor isInfoAnchor (doc_info doc))); [done|].
  by destruct (fieldsFragment fs).
Qed.

Lemma injectDynamicTabs_frame ts doc :
  let doc' := (injectDynamicTabs ts doc).2 in
  doc_info doc' = doc_info doc ∧ doc_listeners doc' = doc_listeners doc.
Proof.
  unfold injectDynamicTabs.
  destruct (Nat.eqb (length ts) 0); [done|].
  destruct (negb (hasAnchor isTabsAnchor (doc_tabList doc))
            || negb (hasAnchor isContentAnchor (doc_tabContents doc))); [done|].
  by destruct (tabFragments 0 ts).
Qed.

(** What the partitioner places is normalised and can be rendered. *)
Lemma normalized_content x :
  isAttributeEntry x = true → isContentField x = true →
  normalField (normalized x) ∧ renderable (normalized x).
Proof.
  intros Hx [Hu _]%andb_true_iff.
  destruct (fieldName_attribute x Hx) as (n & Hn & Hstr).
  destruct (fieldValue_attribute x Hx) as (v & Hv & Hsv & Hnn).
  unfold usableName, normalized, normalField, renderable, attrName, attrValue in *.
  rewrite Hn in *. rewrite Hv. cbn [field_name field_value].
  destruct (Hstr Hu) as (s & -> & Hs).
  repeat split; eauto. exists s. repeat split; [|done]. by destruct s.
Qed.

Lemma normalized_contents l :
  forallb isAttributeEntry l = true →
  Forall (fun f => normalField f ∧ renderable f)
    (normalized <$> List.filter isContentField l).
Proof.
  induction l as [|x l IH]; cbn [forallb List.filter]; [by constructor|].
  intros [Hx Hl]%andb_true_iff.
  destruct (isContentField x) eqn:Ec; [|by apply IH].
  rewrite fmap_cons. constructor; [by apply normalized_content|by apply IH].
Qed.

Lemma innerHTMLOf_Ok v : stringifiable v = true → ∃ s, innerHTMLOf v = Ok s.
Proof.
  intros H. destruct v; try apply (stringifiable_Ok _ H). by eexists.
Qed.

Lemma fieldsFragment_Ok fs :
  Forall renderable fs → ∃ rows, fieldsFragment fs = Ok rows.
Proof.
  induction 1 as [|f fs [[s Hs] Hv] _ [more IH]]; [by eexists|].
  cbn [fieldsFragment]. unfold fieldRows. rewrite Hs. cbn [Js.toString].
  destruct (innerHTMLOf_Ok _ Hv) as [h ->].
  rewrite !bind_Ok, IH, bind_Ok. by eexists.
Qed.

Lemma tabFragments_Ok ts :
  Forall (fun t => Forall renderable (tab_fields t)) ts →
  ∀ i, ∃ frags, tabFragments i ts = Ok frags.
Proof.
  induction 1 as [|t ts Ht _ IH]; intros i; [by eexists|].
  cbn [tabFragments].
  destruct (fieldsFragment_Ok _ Ht) as [rows ->].
  destruct (IH (S i)) as [more ->]. rewrite !bind_Ok. by eexists.
Qed.

Lemma Forall_concat_fields (P : Field → Prop) ts :
  Forall P (concat (tab_fields <$> ts)) → Forall (fun t => Forall P (tab_fields t)) ts.
Proof.
  induction ts as [|t ts IH]; [by constructor|].
  rewrite fmap_cons. cbn [concat].
  intros [H1 H2]%Forall_app. constructor; auto.
Qed.

Lemma injectLeading_Ok fs doc :
  Forall renderable fs → ∃ doc', injectLeadingCustomFields fs doc = (Ok (), doc').
Proof.
  intros [rows Hr]%fieldsFragment_Ok. unfold injectLeadingCustomFields.
  rewrite Hr. repeat case_match; by eexists.
Qed.

Lemma injectDynamicTabs_Ok ts doc :
  Forall (fun t => Forall renderable (tab_fields t)) ts →
  ∃ doc', injectDynamicTabs ts doc = (Ok (), doc').
Proof.
  intros H. destruct (tabFragments_Ok ts H 0) as [frags Hf].
  unfold injectDynamicTabs. rewrite Hf. repeat case_match; by eexists.
Qed.

(** Under [readableContext] the partitioner returns, and what it places is
    normalised and can be rendered. *)
Lemma group_readable context :
  readableContext context = true →
  ∃ r, groupCustomFieldsIntoTabs (contextList context) = Ok r
    ∧ Forall (fun f => normalField f ∧ renderable f) (allFields r).
Proof.
  unfold readableContext. intros H.
  destruct (contextList context) as [| | | | |l|] eqn:E;
    try (eexists; split; [done|by constructor]).
  destruct (groupCustomFieldsIntoTabs_spec l H) as (r & Hr & Hf & _).
  exists r. split; [done|]. rewrite Hf. by apply normalized_contents.
Qed.

(** *** Insertion before an anchor *)

Context {A : Type} (isAnchor : A → bool).

Lemma insertBefore_nil cs : insertBefore isAnchor [] cs = cs.
Proof. induction cs as [|c cs IH]; cbn; [done|]. rewrite IH. by case_match. Qed.

Lemma hasAnchor_insertBefore frag cs :
  hasAnchor isAnchor cs = true →
  hasAnchor isAnchor (insertBefore isAnchor frag cs) = true.
Proof.
  unfold hasAnchor. induction cs as [|c cs IH]; cbn; [done|].
  destruct (isAnchor c) eqn:Ec.
  - intros _. rewrite existsb_app. cbn. rewrite Ec. apply orb_true_r.
  - cbn. by rewrite Ec.
Qed.

Lemma insertBefore_skip frag pre cs :
  forallb (fun c => negb (isAnchor c)) pre = true →
  insertBefore isAnchor frag (pre ++ cs) = pre ++ insertBefore isAnchor frag cs.
Proof.
  induction pre as [|c pre IH]; cbn; [done|].
  intros [Hc Hpre]%andb_true_iff. apply negb_true_iff in Hc.
  by rewrite Hc, IH.
Qed.

(** A second insertion lands after the first, still before the anchor. *)
Lemma insertBefore_twice frag cs :
  forallb (fun c => negb (isAnchor c)) frag = true →
  insertBefore isAnchor frag (insertBefore isAnchor frag cs)
  = insertBefore isAnchor (frag ++ frag) cs.
Proof.
  intros Hf. induction cs as [|c cs IH]; cbn; [done|].
  destruct (isAnchor c) eqn:Ec.
  - rewrite insertBefore_skip by done. cbn. by rewrite Ec, app_assoc.
  - cbn. by rewrite Ec, IH.
Qed.

End Presenter.

(** C6, as stated, fails: a [null] element in the attribute list makes the
    callback raise when it reads [field.name], and the entry point lets the
    exception through. *)
Lemma C6_null_entry_throws :
  initDynamicCustomFieldTabs (mkContext (JBool true) (JArr [JNull])) hostDoc
  = (Throw TypeError, hostDoc).
Proof. reflexivity. Qed.

(** C6, amended.  For every context whose attribute list, when it is an array,
    holds no [null] or [undefined] element and only names and values that
    convert to strings (all strings, numbers, booleans, [null] and absent ones
    do), the entry point ends normally: the list may be absent, empty or not
    an array, names and values may be [null].  Every field the partitioner
    places has a non-empty trimmed name and a value that is not [null] (a
    [null] or absent value has become the empty string); entries without a
    usable name are placed nowhere. *)
Theorem C6_never_throws (context : JsVal) (doc : Document) :
  readableContext context = true →
  ∃ r doc',
    groupCustomFieldsIntoTabs (contextList context) = Ok r
    ∧ Forall normalField (allFields r)
    ∧ initDynamicCustomFieldTabs context doc = (Ok (), doc').
Proof.
  intros H. destruct (group_readable context H) as (r & Hr & Hf).
  exists r.
  assert (Forall normalField (allFields r)) as Hn.
  { eapply Forall_impl; [exact Hf|]. by intros f [? _]. }
  assert (Forall renderable (allFields r)) as Hp.
  { eapply Forall_impl; [exact Hf|]. by intros f [_ ?]. }
  apply Forall_app in Hp as [Hlead Htabs]. apply Forall_concat_fields in Htabs.
  destruct (Js.truthy context) eqn:Hc.
  - rewrite init_unfold by done.
    destruct (negb (Js.truthy (contextFlag context))); [by eexists|].
    destruct (negb (Js.truthy (contextList context))); [by eexists|].
    unfold domBind at 1, domPure. rewrite Hr. unfold domBind.
    destruct (injectLeading_Ok (leadingFields r) doc Hlead) as [doc1 ->].
    destruct (Nat.ltb 0 (length (tabs r))); [|by eexists].
    destruct (injectDynamicTabs_Ok (tabs r) doc1 Htabs) as [doc2 ->].
    by eexists.
  - unfold initDynamicCustomFieldTabs. rewrite Hc. by eexists.
Qed.

Lemma C6_never_throws_witness :
  let context :=
    mkContext (JBool true)
      (JArr [ attr JNull (JStr "dropped"); attr (JStr " Size ") JNull;
              attr (JStr "__newtab") JNull; JNum "7" ]) in
  readableContext context = true
  ∧ ∃ r doc',
      groupCustomFieldsIntoTabs (contextList context) = Ok r
      ∧ Forall normalField (allFields r)
      ∧ initDynamicCustomFieldTabs context hostDoc = (Ok (), doc').
Proof.
  split; [reflexivity|].
  apply (C6_never_throws
           (mkContext (JBool true)
              (JArr [ attr JNull (JStr "dropped"); attr (JStr " Size ") JNull;
                      attr (JStr "__newtab") JNull; JNum "7" ])) hostDoc).
  reflexivity.
Defined.

(** C7.  With a falsy activation flag, or an attribute list that is falsy or
    absent, empty, or not an array, the entry point ends normally and leaves
    the document, its listeners included, exactly as it found it. *)
Theorem C7_inactive_is_noop (context : JsVal) (doc : Document) :
  inactive context = true →
  initDynamicCustomFieldTabs context doc = (Ok (), doc).
Proof.
  intros H. destruct (Js.truthy context) eqn:Hc.
  - rewrite init_unfold by done. unfold inactive in H.
    destruct (Js.truthy (contextFlag context)); [|done].
    destruct (Js.truthy (contextList context)); [|done].
    cbn [negb orb] in *. unfold domBind, domPure.
    by rewrite (group_nothing_to_do _ H).
  - unfold initDynamicCustomFieldTabs. by rewrite Hc.
Qed.

Lemma C7_inactive_is_noop_witness :
  inactive (mkContext (JBool false) exampleInput) = true
  ∧ initDynamicCustomFieldTabs (mkContext (JBool false) exampleInput) hostDoc
    = (Ok (), hostDoc).
Proof.
  split; [reflexivity|].
  apply (C7_inactive_is_noop (mkContext (JBool false) exampleInput) hostDoc).
  reflexivity.
Defined.

(** C9.  When the partition of the context's attribute list has no tab, the
    entry point registers no click listener, whether or not it injected
    leading fields and however it ends. *)
Theorem C9_no_tabs_no_listener (context : JsVal) (doc : Document) (r : Partition) :
  groupCustomFieldsIntoTabs (contextList context) = Ok r →
  tabs r = [] →
  doc_listeners (initDynamicCustomFieldTabs context doc).2 = doc_listeners doc.
Proof.
  intros Hr Ht. destruct (Js.truthy context) eqn:Hc.
  - rewrite init_unfold by done.
    destruct (negb (Js.truthy (contextFlag context))); [done|].
    destruct (negb (Js.truthy (contextList context))); [done|].
    unfold domBind at 1, domPure. rewrite Hr. unfold domBind.
    pose proof (injectLeading_frame (leadingFields r) doc) as (_ & _ & Hl).
    destruct (injectLeadingCustomFields (leadingFields r) doc) as [[[]|e] doc1];
      cbn [snd] in *; [|done].
    by rewrite Ht.
  - unfold initDynamicCustomFieldTabs. by rewrite Hc.
Qed.

Lemma C9_no_tabs_no_listener_witness :
  let context := mkContext (JBool true) (JArr [attr (JStr "Color") (JStr "Red")]) in
  doc_info (initDynamicCustomFieldTabs context hostDoc).2 ≠ doc_info hostDoc
  ∧ doc_listeners (initDynamicCustomFieldTabs context hostDoc).2
    = doc_listeners hostDoc.
Proof.
  split; [discriminate|].
  apply (C9_no_tabs_no_listener _ hostDoc
           {| leadingFields := [ {| field_name := JStr "Color"; field_value := JStr "Red" |} ];
              tabs := [] |}); reflexivity.
Defined.

(** ** Pages whose value markup is text *)

Lemma mayHoldElements_app a b :
  mayHoldElements (a +:+ b) = mayHoldElements a || mayHoldElements b.
Proof.
  induction a as [|c a IH]; [done|].
  rewrite append_cons. cbn [mayHoldElements]. by rewrite IH, orb_assoc.
Qed.

(** An escaped label is text. *)
Lemma mayHoldElements_escapeText s : mayHoldElements (escapeText s) = false.
Proof.
  induction s as [|c s IH]; [done|]. cbn [escapeText].
  rewrite mayHoldElements_app, IH, orb_false_r.
  destruct (Nat.eqb (JsString.code c) 38) eqn:E1; [done|].
  destruct (Nat.eqb (JsString.code c) 60) eqn:E2; [done|].
  destruct (Nat.eqb (JsString.code c) 62) eqn:E3; [done|].
  destruct (Nat.eqb (JsString.code c) 160) eqn:E4; [done|].
  cbn [mayHoldElements]. by rewrite E2.
Qed.

Lemma fieldsFragment_text fs : ∀ rows,
  forallb plainField fs = true → fieldsFragment fs = Ok rows → rowsAreText rows = true.
Proof.
  induction fs as [|f fs IH]; intros rows Hp H; cbn [fieldsFragment] in H.
  - by injection H as <-.
  - cbn [forallb] in Hp. apply andb_true_iff in Hp as [Hf Hp].
    unfold fieldRows in H. unfold plainField in Hf.
    destruct (Js.toString (field_name f)) as [n|]; [|done].
    destruct (innerHTMLOf (field_value f)) as [v|]; [|done].
    rewrite !bind_Ok in H.
    destruct (fieldsFragment fs) as [more|]; [|done].
    rewrite bind_Ok in H. injection H as <-.
    unfold rowsAreText. cbn [app forallb]. rewrite Hf. by apply IH.
Qed.

Lemma tabFragments_text ts : ∀ i frags,
  forallb (fun t => forallb plainField (tab_fields t)) ts = true →
  tabFragments i ts = Ok frags →
  labelsAreText frags.1 = true ∧ panelsAreText frags.2 = true.
Proof.
  induction ts as [|t ts IH]; intros i frags Hp H; cbn [tabFragments] in H.
  - by injection H as <-.
  - cbn [forallb] in Hp. apply andb_true_iff in Hp as [Ht Hp].
    destruct (fieldsFragment (tab_fields t)) as [rows|] eqn:Er; [|done].
    rewrite bind_Ok in H.
    destruct (tabFragments (S i) ts) as [more|] eqn:Em; [|done].
    rewrite bind_Ok in H. injection H as <-.
    destruct (IH (S i) more Hp Em) as [H1 H2].
    unfold labelsAreText, panelsAreText. cbn [fst snd forallb panelIsText panel_rows item_html escapeHtml].
    rewrite mayHoldElements_escapeText, (fieldsFragment_text _ _ Ht Er). by split.
Qed.

Lemma forallb_insertBefore {A} (P isAnchor : A → bool) frag cs :
  forallb P frag = true → forallb P cs = true →
  forallb P (insertBefore isAnchor frag cs) = true.
Proof.
  intros Hf. induction cs as [|c cs IH]; cbn; [done|].
  intros [Hc Hcs]%andb_true_iff.
  destruct (isAnchor c); cbn.
  - rewrite forallb_app. cbn. by rewrite Hf, Hc, Hcs.
  - by rewrite Hc, IH.
Qed.

Lemma forallb_concat_fields (P : Field → bool) ts :
  forallb P (concat (tab_fields <$> ts)) = true →
  forallb (fun t => forallb P (tab_fields t)) ts = true.
Proof.
  induction ts as [|t ts IH]; [done|].
  rewrite fmap_cons. cbn [concat forallb]. rewrite forallb_app.
  intros [H1 H2]%andb_true_iff. by rewrite H1, IH.
Qed.

(** Rendering plain values into a page of text leaves a page of text. *)
Lemma rendered_text r lead frags doc :
  pageIsText doc = true →
  forallb plainField (allFields r) = true →
  fieldsFragment (leadingFields r) = Ok lead →
  tabFragments 0 (tabs r) = Ok frags →
  pageIsText (rendered lead frags doc) = true.
Proof.
  intros [[P1 P2]%andb_true_iff P3]%andb_true_iff Hp Hl Hf.
  unfold allFields in Hp. rewrite forallb_app in Hp.
  apply andb_true_iff in Hp as [Hp1 Hp2]. apply forallb_concat_fields in Hp2.
  destruct (tabFragments_text _ _ _ Hp2 Hf) as [T1 T2].
  pose proof (fieldsFragment_text _ _ Hp1 Hl) as T0.
  unfold pageIsText, rendered, rowsAreText, labelsAreText, panelsAreText in *.
  cbn [doc_info doc_tabList doc_tabContents].
  by rewrite !forallb_insertBefore.
Qed.

(** On a page of text the lookup is the structural one. *)
Lemma lookupById_text doc id :
  pageIsText doc = true →
  lookupById doc id
  = match findPanel id (doc_tabContents doc) with
    | Some i => PanelAt i
    | None => NoElement
    end.
Proof.
  intros [[P1 P2]%andb_true_iff P3]%andb_true_iff. unfold lookupById.
  rewrite P1, P2, P3. cbn [andb].
  destruct (findPanel id (doc_tabContents doc)) as [i|]; [|done].
  assert (panelsAreText (take i (doc_tabContents doc)) = true) as ->; [|done].
  unfold panelsAreText in *. rewrite <- (take_drop i (doc_tabContents doc)) in P3.
  rewrite forallb_app in P3. by apply andb_true_iff in P3 as [? _].
Qed.

(** ** Running the entry point twice *)

Lemma fieldsFragment_no_anchor fs : ∀ rows,
  fieldsFragment fs = Ok rows →
  forallb (fun n => negb (isInfoAnchor n)) rows = true.
Proof.
  induction fs as [|f fs IH]; intros rows H; cbn [fieldsFragment] in H.
  - by injection H as <-.
  - unfold fieldRows in H.
    destruct (Js.toString (field_name f)) as [n|]; [|done].
    destruct (innerHTMLOf (field_value f)) as [v|]; [|done].
    rewrite !bind_Ok in H.
    destruct (fieldsFragment fs) as [more|]; [|done].
    rewrite bind_Ok in H. injection H as <-. cbn. by apply IH.
Qed.

Lemma tabFragments_no_anchor ts : ∀ i frags,
  tabFragments i ts = Ok frags →
  forallb (fun n => negb (isTabsAnchor n)) frags.1 = true
  ∧ forallb (fun n => negb (isContentAnchor n)) frags.2 = true.
Proof.
  induction ts as [|t ts IH]; intros i frags H; cbn [tabFragments] in H.
  - by injection H as <-.
  - destruct (fieldsFragment (tab_fields t)) as [rows|]; [|done].
    rewrite bind_Ok in H.
    destruct (tabFragments (S i) ts) as [more|] eqn:Em; [|done].
    rewrite bind_Ok in H. injection H as <-. cbn. by apply (IH (S i)).
Qed.

Lemma injectLeading_present fs lead doc :
  hasAnchor isInfoAnchor (doc_info doc) = true →
  fieldsFragment fs = Ok lead →
  injectLeadingCustomFields fs doc
  = (Ok (),
     {| doc_info := insertBefore isInfoAnchor lead (doc_info doc);
        doc_tabList := doc_tabList doc;
        doc_tabContents := doc_tabContents doc;
        doc_listeners := doc_listeners doc |}).
Proof.
  intros Ha Hf. unfold injectLeadingCustomFields. rewrite Ha, Hf. cbn [negb].
  destruct fs as [|f fs]; [|done].
  injection Hf as <-. rewrite insertBefore_nil. by destruct doc.
Qed.

Lemma injectDynamicTabs_present ts frags doc :
  hasAnchor isTabsAnchor (doc_tabList doc) = true →
  hasAnchor isContentAnchor (doc_tabContents doc) = true →
  tabFragments 0 ts = Ok frags →
  injectDynamicTabs ts doc
  = (Ok (),
     {| doc_info := doc_info doc;
        doc_tabList := insertBefore isTabsAnchor frags.1 (doc_tabList doc);
        doc_tabContents := insertBefore isContentAnchor frags.2 (doc_tabContents doc);
        doc_listeners := doc_listeners doc |}).
Proof.
  intros Hl Hc Hf. unfold injectDynamicTabs. rewrite Hl, Hc, Hf. cbn [negb orb].
  destruct ts as [|t ts]; [|done].
  injection Hf as <-. cbn [fst snd]. rewrite !insertBefore_nil. by destruct doc.
Qed.

(** One run on a page that holds the anchors, for a context that yields at
    least one tab. *)
Lemma init_rendered context doc r lead frags :
  Js.truthy (contextFlag context) = true →
  groupCustomFieldsIntoTabs (contextList context) = Ok r →
  tabs r ≠ [] →
  anchorsPresent doc = true →
  fieldsFragment (leadingFields r) = Ok lead →
  tabFragments 0 (tabs r) = Ok frags →
  initDynamicCustomFieldTabs context doc = (Ok (), rendered lead frags doc).
Proof.
  intros Hflag Hr Ht [[Ha1 Ha2]%andb_true_iff Ha3]%andb_true_iff Hlead Hfrags.
  assert (Js.truthy (contextList context) = true) as Hlist.
  { destruct (contextList context) as [| | | | |[|x l]|]; try done;
      cbn in Hr; injection Hr as <-; done. }
  assert (Js.truthy context = true) as Hc.
  { unfold contextList, propOf in Hlist. by destruct context. }
  rewrite init_unfold by done. rewrite Hflag, Hlist. cbn [negb].
  unfold domBind at 1, domPure. rewrite Hr. unfold domBind.
  rewrite (injectLeading_present _ lead) by done.
  destruct (tabs r) as [|t ts] eqn:Ets; [done|]. cbn [length Nat.ltb Nat.leb].
  rewrite (injectDynamicTabs_present _ frags) by done.
  reflexivity.
Qed.

(** One run for a context that yields leading fields only: the rows land
    before the anchor and nothing else changes. *)
Lemma init_leading_only context doc r lead :
  Js.truthy context = true →
  Js.truthy (contextFlag context) = true →
  Js.truthy (contextList context) = true →
  groupCustomFieldsIntoTabs (contextList context) = Ok r →
  tabs r = [] →
  hasAnchor isInfoAnchor (doc_info doc) = true →
  fieldsFragment (leadingFields r) = Ok lead →
  initDynamicCustomFieldTabs context doc
  = (Ok (),
     {| doc_info := insertBefore isInfoAnchor lead (doc_info doc);
        doc_tabList := doc_tabList doc;
        doc_tabContents := doc_tabContents doc;
        doc_listeners := doc_listeners doc |}).
Proof.
  intros Hc Hflag Hlist Hr Ht Ha Hlead.
  rewrite init_unfold by done. rewrite Hflag, Hlist. cbn [negb].
  unfold domBind at 1, domPure. rewrite Hr. unfold domBind.
  rewrite (injectLeading_present _ lead) by done. by rewrite Ht.
Qed.

(** Without tabs a second run still repeats the leading rows, and still
    registers no listener. *)
Lemma second_run_leading_only context doc r lead :
  Js.truthy context = true →
  Js.truthy (contextFlag context) = true →
  Js.truthy (contextList context) = true →
  groupCustomFieldsIntoTabs (contextList context) = Ok r →
  tabs r = [] →
  hasAnchor isInfoAnchor (doc_info doc) = true →
  fieldsFragment (leadingFields r) = Ok lead →
  ∃ doc1 doc2,
    initDynamicCustomFieldTabs context doc = (Ok (), doc1)
    ∧ initDynamicCustomFieldTabs context doc1 = (Ok (), doc2)
    ∧ doc_info doc2 = insertBefore isInfoAnchor (lead ++ lead) (doc_info doc)
    ∧ doc_listeners doc2 = doc_listeners doc.
Proof.
  intros Hc Hflag Hlist Hr Ht Ha Hlead.
  pose proof (fieldsFragment_no_anchor _ _ Hlead) as Hna.
  eexists _, _. split; [by apply (init_leading_only _ _ r lead)|].
  split.
  { apply (init_leading_only _ _ r lead); try done.
    by apply hasAnchor_insertBefore. }
  cbn. by rewrite insertBefore_twice.
Qed.

(** C10, as stated, fails for a context that enables rendering but yields no
    tab: on the host page, which holds the three anchors, both runs insert
    the leading rows, and neither registers a listener, so the second run
    registers no additional one. *)
Lemma C10_leading_only_no_listener :
  let context := mkContext (JBool true) (JArr [attr (JStr "Color") (JStr "Red")]) in
  let row := [Dt "productView-info-name" "Color:"; Dd "productView-info-value" "Red"] in
  anchorsPresent hostDoc = true
  ∧ ∃ doc1 doc2,
      initDynamicCustomFieldTabs context hostDoc = (Ok (), doc1)
      ∧ initDynamicCustomFieldTabs context doc1 = (Ok (), doc2)
      ∧ doc_info doc1 = insertBefore isInfoAnchor row (doc_info hostDoc)
      ∧ doc_info doc2 = insertBefore isInfoAnchor (row ++ row) (doc_info hostDoc)
      ∧ doc_listeners doc1 = []
      ∧ doc_listeners doc2 = [].
Proof. split; [reflexivity|]. eexists _, _. by repeat split. Qed.

(** C10.  The entry point is not idempotent.  For a context with a truthy
    flag whose attribute list yields at least one tab and whose field values
    are text, on a page that holds the three anchors and whose value markup
    is text, a first run inserts the leading rows, the tab labels and the
    panels and registers one listener, and leaves the value markup of the
    page text, so that the anchors are again the only elements carrying
    their ids; a second run with the same context inserts a second copy of
    each of them before the same anchors, after the first copy, and
    registers a second listener. *)
Theorem C10_second_run_duplicates (context : JsVal) (doc : Document) (r : Partition) :
  Js.truthy (contextFlag context) = true →
  readableContext context = true →
  groupCustomFieldsIntoTabs (contextList context) = Ok r →
  tabs r ≠ [] →
  anchorsPresent doc = true →
  pageIsText doc = true →
  forallb plainField (allFields r) = true →
  ∃ lead frags doc1 doc2,
    fieldsFragment (leadingFields r) = Ok lead
    ∧ tabFragments 0 (tabs r) = Ok frags
    ∧ initDynamicCustomFieldTabs context doc = (Ok (), doc1)
    ∧ pageIsText doc1 = true
    ∧ initDynamicCustomFieldTabs context doc1 = (Ok (), doc2)
    ∧ doc_info doc2 = insertBefore isInfoAnchor (lead ++ lead) (doc_info doc)
    ∧ doc_tabList doc2 = insertBefore isTabsAnchor (frags.1 ++ frags.1) (doc_tabList doc)
    ∧ doc_tabContents doc2
      = insertBefore isContentAnchor (frags.2 ++ frags.2) (doc_tabContents doc)
    ∧ doc_listeners doc2 = doc_listeners doc ++ [DynamicTabClick; DynamicTabClick]
    ∧ doc2 ≠ doc1.
Proof.
  intros Hflag Hread Hr Ht Ha Htext Hplain.
  destruct (group_readable context Hread) as (r' & Hr' & Hf).
  assert (r' = r) as -> by congruence.
  assert (Forall renderable (allFields r)) as Hp.
  { eapply Forall_impl; [exact Hf|]. by intros f [_ ?]. }
  apply Forall_app in Hp as [Hlead Htabs]. apply Forall_concat_fields in Htabs.
  destruct (fieldsFragment_Ok _ Hlead) as [lead Hl].
  destruct (tabFragments_Ok _ Htabs 0) as [frags Hfr].
  pose proof (fieldsFragment_no_anchor _ _ Hl) as Hna.
  destruct (tabFragments_no_anchor _ _ _ Hfr) as [Hn1 Hn2].
  exists lead, frags, (rendered lead frags doc), (rendered lead frags (rendered lead frags doc)).
  apply andb_true_iff in Ha as Ha'. destruct Ha' as [[Ha1 Ha2]%andb_true_iff Ha3].
  split; [done|]. split; [done|].
  split; [by apply (init_rendered _ _ r)|].
  split; [by apply (rendered_text r)|].
  split.
  { apply (init_rendered _ _ r); try done.
    unfold anchorsPresent, rendered. cbn.
    by rewrite !hasAnchor_insertBefore. }
  unfold rendered. cbn.
  rewrite !insertBefore_twice, <- app_assoc by done.
  repeat split; try done.
  intros H. apply (f_equal doc_listeners), (f_equal length) in H.
  cbn in H. rewrite !length_app in H. cbn in H. lia.
Qed.

Lemma C10_second_run_duplicates_witness :
  let context := mkContext (JBool true) (JArr plainExampleFields) in
  ∃ lead frags doc1 doc2,
    fieldsFragment (leadingFields plainExamplePartition) = Ok lead
    ∧ tabFragments 0 (tabs plainExamplePartition) = Ok frags
    ∧ initDynamicCustomFieldTabs context hostDoc = (Ok (), doc1)
    ∧ pageIsText doc1 = true
    ∧ initDynamicCustomFieldTabs context doc1 = (Ok (), doc2)
    ∧ doc_info doc2 = insertBefore isInfoAnchor (lead ++ lead) (doc_info hostDoc)
    ∧ doc_tabList doc2
      = insertBefore isTabsAnchor (frags.1 ++ frags.1) (doc_tabList hostDoc)
    ∧ doc_tabContents doc2
      = insertBefore isContentAnchor (frags.2 ++ frags.2) (doc_tabContents hostDoc)
    ∧ doc_listeners doc2 = doc_listeners hostDoc ++ [DynamicTabClick; DynamicTabClick]
    ∧ doc2 ≠ doc1.
Proof.
  apply (C10_second_run_duplicates (mkContext (JBool true) (JArr plainExampleFields))
           hostDoc plainExamplePartition); try reflexivity.
  discriminate.
Defined.

(** ** The links the presenter injects *)

Section InjectedLinks.

Lemma isSlugChar_isIdChar c : JsString.isSlugChar c = true → isIdChar c = true.
Proof.
  unfold JsString.isSlugChar, isIdChar.
  intros [[H|H]%orb_true_iff|H]%orb_true_iff; rewrite H; cbn;
    by rewrite ?orb_true_r.
Qed.

Lemma allIdChars_app a b : allIdChars (a +:+ b) = allIdChars a && allIdChars b.
Proof.
  induction a as [|c a IH]; [done|].
  rewrite append_cons. cbn [allIdChars]. by rewrite IH, andb_assoc.
Qed.

Lemma allIdChars_stripNonSlug s : allIdChars (JsString.stripNonSlug s) = true.
Proof.
  induction s as [|c s IH]; [done|]. cbn [JsString.stripNonSlug].
  destruct (JsString.isSlugChar c) eqn:E; [|done].
  cbn [allIdChars]. by rewrite (isSlugChar_isIdChar _ E), IH.
Qed.

Lemma allIdChars_uint d : allIdChars (NilEmpty.string_of_uint d) = true.
Proof. induction d; cbn; auto. Qed.

Lemma allIdChars_ofNat n : allIdChars (JsString.ofNat n) = true.
Proof.
  unfold JsString.ofNat, NilZero.string_of_uint.
  destruct (Nat.to_uint n); try apply allIdChars_uint. done.
Qed.

(** A slug is made of identifier characters. *)
Lemma allIdChars_slugify label k : allIdChars (slugify label k) = true.
Proof.
  assert (allIdChars (slugFallback k) = true) as Hfb.
  { unfold slugFallback. by rewrite allIdChars_app, allIdChars_ofNat. }
  unfold slugify. destruct label; try done.
  case_match; [done|]. apply allIdChars_stripNonSlug.
Qed.

(** The [href] built for such a slug is an id selector that the delegated
    selector matches. *)
Lemma renderedId_selector slug i :
  allIdChars slug = true →
  isIdSelector ("#" +:+ renderedId slug i) = true
  ∧ JsString.startsWith "#tab-dynamic-" ("#" +:+ renderedId slug i) = true.
Proof.
  intros H. split; [|done]. unfold renderedId.
  change ("#" +:+ "tab-dynamic-" +:+ slug +:+ "-" +:+ JsString.ofNat i)
    with (String "#" ("tab-dynamic-" +:+ slug +:+ "-" +:+ JsString.ofNat i)).
  unfold isIdSelector. rewrite !allIdChars_app, H, allIdChars_ofNat. done.
Qed.

(** Every tab the partitioner makes has such a slug. *)
Lemma partition_slugs l r :
  forallb isAttributeEntry l = true →
  groupCustomFieldsIntoTabs (JArr l) = Ok r →
  Forall (fun t => allIdChars (tab_slug t) = true) (tabs r).
Proof.
  intros Hl Hr.
  destruct (groupCustomFieldsIntoTabs_spec l Hl) as (r' & Hr' & _ & Hh).
  assert (r' = r) as -> by congruence.
  assert (∀ k xs, Forall (fun h => allIdChars h.2 = true) (headsFrom k xs)) as Hheads.
  { intros k xs. revert k. induction xs as [|x xs IH]; intros k; cbn; constructor.
    - apply allIdChars_slugify.
    - apply IH. }
  specialize (Hheads 0 (List.filter isTriggerField l)). rewrite <- Hh in Hheads.
  by apply Forall_fmap in Hheads.
Qed.

End InjectedLinks.

(** ** The delegated click handler *)

Lemma setItemActive_twice b b' n : setItemActive b' (setItemActive b n) = setItemActive b' n.
Proof. by destruct n. Qed.

Lemma setPanelActive_twice b b' n :
  setPanelActive b' (setPanelActive b n) = setPanelActive b' n.
Proof. by destruct n. Qed.

(** After "deactivate all, then activate the one at [i]", the node at [j]
    is active exactly when [j = i], and nothing else about it has changed. *)
Lemma lookup_activate {N} (set : bool → N → N)
    (Hset : ∀ b b' n, set b' (set b n) = set b' n) (l : list N) (i j : nat) :
  alter (set true) i (set false <$> l) !! j = set (bool_decide (j = i)) <$> l !! j.
Proof.
  destruct (decide (j = i)) as [->|Hij].
  - rewrite list_lookup_alter_eq, list_lookup_fmap, bool_decide_eq_true_2 by done.
    destruct (l !! i) as [n|]; cbn; [|done]. by rewrite Hset.
  - rewrite list_lookup_alter_ne, list_lookup_fmap, bool_decide_eq_false_2 by done.
    done.
Qed.

(** The panel the handler finds carries the id it looked for, and no earlier
    panel does. *)
Lemma findPanel_Some id cs : ∀ i,
  findPanel id cs = Some i →
  ∃ p, cs !! i = Some (PanelDiv p) ∧ panel_id p = id.
Proof.
  induction cs as [|c cs IH]; intros i H; cbn in H; [done|].
  destruct c as [|p].
  - destruct (findPanel id cs) as [k|]; [|done]. injection H as <-. by apply IH.
  - destruct (String.eqb (panel_id p) id) eqn:E.
    + injection H as <-. apply String.eqb_eq in E. by exists p.
    + destruct (findPanel id cs) as [k|]; [|done]. injection H as <-. by apply IH.
Qed.

(** C8, as stated, fails: when no element of the document carries the
    referenced id the handler returns before it reaches [preventDefault], so
    the default navigation is not prevented. *)
Lemma C8_missing_panel_default_not_prevented :
  doc_tabList orphanDoc !! 0
  = Some (TabLi {| item_href := "#tab-dynamic-gone-0"; item_html := "Gone";
                   item_active := false |})
  ∧ lookupById orphanDoc "tab-dynamic-gone-0" = NoElement
  ∧ dynamicTabClick orphanDoc 0 = Handled orphanDoc false.
Proof. repeat split. Qed.

Lemma lookupById_PanelAt doc id i :
  lookupById doc id = PanelAt i → findPanel id (doc_tabContents doc) = Some i.
Proof.
  unfold lookupById. repeat case_match; try done. by intros [= ->].
Qed.

Lemma delegated_href_not_bare href :
  JsString.startsWith "#tab-dynamic-" href = true →
  JsString.isEmpty href || String.eqb href "#" = false.
Proof.
  intros Hprefix. destruct href as [|c [|c' s]]; [done| |].
  - cbn in Hprefix. by rewrite andb_false_r in Hprefix.
  - cbn. by destruct (Ascii.eqb c _).
Qed.

(** C8, amended.  For a click on a tab link whose [href] is [#tab-dynamic-...]
    (an id selector): if no element of the page carries that id, the handler
    does nothing at all, and does not prevent the default navigation; if the
    first element that carries it is a panel of the tab-content container, the
    handler prevents the default navigation, and afterwards a label control of
    the tab group is active exactly when it is the clicked one, and a panel
    of the container exactly when it is the referenced one, everything else
    being as before.  (When markup written from a field value stands before
    and may carry the id, the referenced element is the HTML parser's to name,
    and nothing is stated.) *)
Theorem C8_click_activates_one (doc : Document) (this : nat) (item : TabItem) :
  doc_tabList doc !! this = Some (TabLi item) →
  JsString.startsWith "#tab-dynamic-" (item_href item) = true →
  isIdSelector (item_href item) = true →
  match lookupById doc (fragmentOf (item_href item)) with
  | NoElement => dynamicTabClick doc this = Handled doc false
  | MaybeInMarkup => dynamicTabClick doc this = BeyondValueMarkup
  | PanelAt content =>
      ∃ doc' panel,
        dynamicTabClick doc this = Handled doc' true
        ∧ doc_tabContents doc !! content = Some (PanelDiv panel)
        ∧ panel_id panel = fragmentOf (item_href item)
        ∧ (∀ j, doc_tabList doc' !! j
                = setItemActive (bool_decide (j = this)) <$> doc_tabList doc !! j)
        ∧ (∀ j, doc_tabContents doc' !! j
                = setPanelActive (bool_decide (j = content)) <$> doc_tabContents doc !! j)
        ∧ doc_info doc' = doc_info doc
        ∧ doc_listeners doc' = doc_listeners doc
  end.
Proof.
  intros Hthis Hprefix Hid. unfold dynamicTabClick.
  rewrite Hthis, Hprefix, Hid, (delegated_href_not_bare _ Hprefix). cbn [negb].
  destruct (lookupById doc (fragmentOf (item_href item))) as [|content|] eqn:E;
    [done| |done].
  destruct (findPanel_Some _ _ _ (lookupById_PanelAt _ _ _ E)) as (panel & Hp & Hpid).
  eexists _, panel. split; [done|].
  cbn [doc_tabList doc_tabContents doc_info doc_listeners].
  repeat split; try done.
  - intros j. apply lookup_activate, setItemActive_twice.
  - intros j. apply lookup_activate, setPanelActive_twice.
Qed.

Lemma C8_click_activates_one_witness :
  ∃ doc' panel,
    dynamicTabClick exampleDoc 1 = Handled doc' true
    ∧ doc_tabContents exampleDoc !! 1 = Some (PanelDiv panel)
    ∧ panel_id panel = "tab-dynamic-specs-0"
    ∧ (∀ j, doc_tabList doc' !! j
            = setItemActive (bool_decide (j = 1)) <$> doc_tabList exampleDoc !! j)
    ∧ (∀ j, doc_tabContents doc' !! j
            = setPanelActive (bool_decide (j = 1)) <$> doc_tabContents exampleDoc !! j)
    ∧ doc_info doc' = doc_info exampleDoc
    ∧ doc_listeners doc' = doc_listeners exampleDoc.
Proof.
  apply (C8_click_activates_one exampleDoc 1
           {| item_href := "#tab-dynamic-specs-0"; item_html := "Specs";
              item_active := false |}); reflexivity.
Defined.

(** * Further properties *)

(** ** Slugs and escaping *)

Lemma allSlugChars_app a b : allSlugChars (a +:+ b) = allSlugChars a && allSlugChars b.
Proof.
  induction a as [|c a IH]; [done|].
  rewrite append_cons. cbn [allSlugChars]. by rewrite IH, andb_assoc.
Qed.

Lemma allSlugChars_stripNonSlug s : allSlugChars (JsString.stripNonSlug s) = true.
Proof.
  induction s as [|c s IH]; [done|]. cbn [JsString.stripNonSlug].
  destruct (JsString.isSlugChar c) eqn:E; [|done].
  cbn [allSlugChars]. by rewrite E, IH.
Qed.

Lemma allSlugChars_uint d : allSlugChars (NilEmpty.string_of_uint d) = true.
Proof. induction d; cbn; auto. Qed.

Lemma allSlugChars_ofNat n : allSlugChars (JsString.ofNat n) = true.
Proof.
  unfold JsString.ofNat, NilZero.string_of_uint.
  destruct (Nat.to_uint n); try apply allSlugChars_uint. done.
Qed.

Lemma slugFallback_wellformed k :
  JsString.isEmpty (slugFallback k) = false ∧ allSlugChars (slugFallback k) = true.
Proof.
  split; [done|]. unfold slugFallback. by rewrite allSlugChars_app, allSlugChars_ofNat.
Qed.

Lemma slugify_shape label k :
  JsString.isEmpty (slugify label k) = false ∧ allSlugChars (slugify label k) = true.
Proof.
  unfold slugify. destruct label as [| | | |l| |]; try apply slugFallback_wellformed.
  cbv zeta.
  destruct (JsString.isEmpty (JsString.stripNonSlug
              (JsString.replaceWsRuns (JsString.trim (JsString.toLowerCase l)))))
    eqn:E; [apply slugFallback_wellformed|].
  split; [done|]. apply allSlugChars_stripNonSlug.
Qed.

(** X1.  Whatever the label and the index, the slug is never empty and is
    made of characters of [a-z0-9-] only. *)
Theorem X1_slug_wellformed (label : JsVal) (index : nat) :
  JsString.isEmpty (slugify label index) = false
  ∧ allSlugChars (slugify label index) = true.
Proof. apply slugify_shape. Qed.

Lemma isSlugChar_plain c :
  JsString.isSlugChar c = true →
  JsString.toLowerChar c = c ∧ JsString.isWhiteSpace c = false.
Proof. destruct c as [[] [] [] [] [] [] [] []]; cbn; intros H; try done. Qed.

Lemma slugChars_toLowerCase s : allSlugChars s = true → JsString.toLowerCase s = s.
Proof.
  induction s as [|c s IH]; [done|]. cbn.
  intros [Hc Hs]%andb_true_iff.
  destruct (isSlugChar_plain c Hc) as [-> _]. by rewrite IH.
Qed.

Lemma slugChars_trimStart s : allSlugChars s = true → JsString.trimStart s = s.
Proof.
  destruct s as [|c s]; [done|]. cbn. intros [Hc _]%andb_true_iff.
  by destruct (isSlugChar_plain c Hc) as [_ ->].
Qed.

Lemma slugChars_trimEnd s : allSlugChars s = true → JsString.trimEnd s = s.
Proof.
  induction s as [|c s IH]; [done|]. cbn.
  intros [Hc Hs]%andb_true_iff. rewrite (IH Hs).
  destruct (isSlugChar_plain c Hc) as [_ ->]. by destruct s.
Qed.

Lemma slugChars_replaceWsRuns s b :
  allSlugChars s = true → JsString.replaceWsRunsFrom b s = s.
Proof.
  revert b. induction s as [|c s IH]; intros b; [done|]. cbn.
  intros [Hc Hs]%andb_true_iff.
  destruct (isSlugChar_plain c Hc) as [_ ->]. by rewrite IH.
Qed.

Lemma slugChars_stripNonSlug s : allSlugChars s = true → JsString.stripNonSlug s = s.
Proof.
  induction s as [|c s IH]; [done|]. cbn.
  intros [Hc Hs]%andb_true_iff. by rewrite Hc, IH.
Qed.

(** X2.  A slug is a fixed point of [slugify]: slugifying it again, at the
    same index, gives it back. *)
Theorem X2_slug_fixed_point (label : JsVal) (index : nat) :
  slugify (JStr (slugify label index)) index = slugify label index.
Proof.
  destruct (slugify_shape label index) as [Hne Hsc].
  unfold slugify at 1. unfold JsString.trim.
  rewrite (slugChars_toLowerCase _ Hsc), (slugChars_trimStart _ Hsc),
    (slugChars_trimEnd _ Hsc).
  unfold JsString.replaceWsRuns.
  rewrite (slugChars_replaceWsRuns _ _ Hsc), (slugChars_stripNonSlug _ Hsc).
  by rewrite Hne.
Qed.

(** X3.  Two labels that agree once trimmed and lowercased get the same slug
    at the same index: letter case and surrounding whitespace do not count. *)
Theorem X3_slug_ignores_case_and_padding (a b : string) (index : nat) :
  JsString.toLowerCase (JsString.trim a) = JsString.toLowerCase (JsString.trim b) →
  slugify (JStr a) index = slugify (JStr b) index.
Proof. intros H. unfold slugify. by rewrite !trim_toLowerCase, H. Qed.

Lemma X3_slug_ignores_case_and_padding_witness :
  slugify (JStr "  Tech Info ") 2 = slugify (JStr "TECH INFO") 2.
Proof.
  apply (X3_slug_ignores_case_and_padding "  Tech Info " "TECH INFO" 2). reflexivity.
Defined.

Lemma hasAngle_app a b : hasAngle (a +:+ b) = hasAngle a || hasAngle b.
Proof.
  induction a as [|c a IH]; [done|].
  rewrite append_cons. cbn [hasAngle]. by rewrite IH, !orb_assoc.
Qed.

Lemma hasAngle_escapeText s : hasAngle (escapeText s) = false.
Proof.
  induction s as [|c s IH]; [done|]. cbn [escapeText].
  rewrite hasAngle_app, IH, orb_false_r.
  destruct (Nat.eqb (JsString.code c) 38) eqn:E1; [done|].
  destruct (Nat.eqb (JsString.code c) 60) eqn:E2; [done|].
  destruct (Nat.eqb (JsString.code c) 62) eqn:E3; [done|].
  destruct (Nat.eqb (JsString.code c) 160) eqn:E4; [done|].
  cbn [hasAngle]. by rewrite E2, E3.
Qed.

(** X4.  What [escapeHtml] returns holds no [<] and no [>], whatever it is
    given; for anything that is not a string it returns the empty string. *)
Theorem X4_escapeHtml_no_markup (v : JsVal) :
  hasAngle (escapeHtml v) = false
  ∧ match v with JStr _ => True | _ => escapeHtml v = "" end.
Proof.
  split.
  - destruct v; try done. apply hasAngle_escapeText.
  - by destruct v.
Qed.

(** ** The shape of a partition *)

(** The state one run of the callback leaves, on an entry it can read. *)
Lemma groupStep_exact st x :
  isAttributeEntry x = true →
  groupStep st x
  = Ok (if isTriggerField x then
          {| st_leadingFields := st_leadingFields st;
             st_tabs := st_tabs st ++ [newTab (length (st_tabs st)) x];
             st_currentTab := Some (length (st_tabs st));
             st_seenFirstTrigger := true |}
        else if usableName x then
          match st_seenFirstTrigger st, st_currentTab st with
          | true, Some i =>
              {| st_leadingFields := st_leadingFields st;
                 st_tabs := alter (pushField (normalized x)) i (st_tabs st);
                 st_currentTab := st_currentTab st;
                 st_seenFirstTrigger := st_seenFirstTrigger st |}
          | _, _ =>
              {| st_leadingFields := st_leadingFields st ++ [normalized x];
                 st_tabs := st_tabs st;
                 st_currentTab := st_currentTab st;
                 st_seenFirstTrigger := st_seenFirstTrigger st |}
          end
        else st).
Proof.
  intros Hx.
  destruct (fieldName_attribute x Hx) as (n & Hn & Hstr).
  destruct (fieldValue_attribute x Hx) as (v & Hv & Hsv & Hnn).
  destruct (isNewTabTrigger_name n) as (t & Ht & Htn).
  { intros H. destruct (Hstr H) as (s & -> & _). eauto. }
  unfold groupStep, usableName, isTriggerField, normalized, newTab,
    headOfTrigger, attrName, attrValue.
  rewrite Hn, Hv, !bind_Ok, Ht, bind_Ok.
  destruct (Js.truthy t) eqn:Et.
  - destruct (triggerLabel_Ok v Hsv) as [l Hl]. by rewrite Hl, bind_Ok.
  - destruct (Js.truthy n); [|done].
    by destruct (st_seenFirstTrigger st), (st_currentTab st).
Qed.

Lemma fieldsOf_cons_usable x l :
  usableName x = true → fieldsOf (x :: l) = normalized x :: fieldsOf l.
Proof. intros H. unfold fieldsOf. cbn [List.filter]. by rewrite H. Qed.

Lemma fieldsOf_cons_unusable x l : usableName x = false → fieldsOf (x :: l) = fieldsOf l.
Proof. intros H. unfold fieldsOf. cbn [List.filter]. by rewrite H. Qed.

(** The whole loop, from a state with no tab yet and from a state whose
    current tab is the last one. *)
Lemma forEach_exact l : ∀ st,
  forallb isAttributeEntry l = true →
  ∃ st', forEach groupStep l st = Ok st'
    ∧ (st_tabs st = [] → st_currentTab st = None →
       st_leadingFields st' = st_leadingFields st ++ fieldsOf (untilTrigger l)
       ∧ st_tabs st' = tabsFrom 0 l)
    ∧ (∀ ts t, st_tabs st = ts ++ [t] → st_currentTab st = Some (length ts) →
       st_seenFirstTrigger st = true →
       st_leadingFields st' = st_leadingFields st
       ∧ st_tabs st'
         = ts ++ [{| tab_label := tab_label t; tab_slug := tab_slug t;
                     tab_fields := tab_fields t ++ fieldsOf (untilTrigger l) |}]
              ++ tabsFrom (S (length ts)) l).
Proof.
  induction l as [|x l IH]; intros st Hl.
  - exists st. split; [done|]. split.
    + intros -> _. by rewrite app_nil_r.
    + intros ts t -> _ _. cbn. rewrite !app_nil_r. by destruct t.
  - cbn [forallb] in Hl. apply andb_true_iff in Hl as [Hx Hl].
    cbn [forEach]. rewrite (groupStep_exact st x Hx), bind_Ok.
    cbn [untilTrigger tabsFrom].
    destruct (isTriggerField x) eqn:Etr.
    + match goal with
      | |- context [forEach groupStep l ?s] => destruct (IH s Hl) as (st' & -> & _ & Hb)
      end.
      exists st'. split; [done|].
      specialize (Hb (st_tabs st) (newTab (length (st_tabs st)) x) eq_refl eq_refl eq_refl)
        as [Hlead Htabs].
      cbn [st_leadingFields] in Hlead. split.
      * intros Hts _. rewrite Hts in *. rewrite Hlead, Htabs.
        split; [|done]. unfold fieldsOf. cbn. by rewrite app_nil_r.
      * intros ts t Hts _ _. rewrite Hts in *. rewrite Hlead, Htabs.
        split; [done|]. rewrite !length_app. cbn [length]. rewrite !Nat.add_1_r.
        replace (fieldsOf []) with (@nil Field) by done.
        destruct t. cbn. by rewrite app_nil_r, <- !app_assoc.
    + destruct (usableName x) eqn:Eu.
      * destruct (st_seenFirstTrigger st) eqn:Es, (st_currentTab st) as [i|] eqn:Ec;
          match goal with
          | |- context [forEach groupStep l ?s] =>
              destruct (IH s Hl) as (st' & -> & Ha & Hb)
          end;
          exists st'; (split; [done|]); cbn [st_leadingFields st_tabs st_currentTab
                                               st_seenFirstTrigger] in *.
        all: split;
          [ intros Hts Hcur; try done
          | intros ts t Hts Hcur Hseen; try done ].
        -- injection Hcur as ->. rewrite Hts in Hb. rewrite alter_last in Hb.
           destruct (Hb ts (pushField (normalized x) t) eq_refl eq_refl eq_refl)
             as [Hlead Htabs].
           rewrite Hlead, Htabs, (fieldsOf_cons_usable _ _ Eu).
           split; [done|]. cbn. by rewrite <- !app_assoc.
        -- destruct (Ha Hts Hcur) as [Hlead Htabs].
           rewrite Hlead, Htabs, (fieldsOf_cons_usable _ _ Eu).
           by rewrite <- app_assoc.
        -- destruct (Ha Hts Hcur) as [Hlead Htabs].
           rewrite Hlead, Htabs, (fieldsOf_cons_usable _ _ Eu).
           by rewrite <- app_assoc.
      * destruct (IH st Hl) as (st' & -> & Ha & Hb).
        exists st'. split; [done|]. rewrite (fieldsOf_cons_unusable _ _ Eu).
        split; [exact Ha|exact Hb].
Qed.

Lemma partition_exact l :
  forallb isAttributeEntry l = true →
  groupCustomFieldsIntoTabs (JArr l)
  = Ok {| leadingFields := fieldsOf (untilTrigger l); tabs := tabsFrom 0 l |}.
Proof.
  intros Hl. unfold groupCustomFieldsIntoTabs.
  destruct (Nat.eqb (length l) 0) eqn:E.
  - apply Nat.eqb_eq, nil_length_inv in E. by subst l.
  - destruct (forEach_exact l initialState Hl) as (st & -> & Ha & _).
    destruct (Ha eq_refl eq_refl) as [H1 H2]. by rewrite bind_Ok, H1, H2.
Qed.

(** X5.  One entry with a string name opens a tab exactly when the name,
    trimmed and lowercased, is [__newtab]; otherwise the partition has no
    tab. *)
Theorem X5_trigger_is_trimmed_lowercased_token (s : string) (v : JsVal) :
  stringifiable v = true →
  ∃ r, groupCustomFieldsIntoTabs (JArr [attr (JStr s) v]) = Ok r
    ∧ length (tabs r)
      = if String.eqb (JsString.toLowerCase (JsString.trim s)) NEWTAB_TRIGGER_NAME
        then 1 else 0.
Proof.
  intros Hv.
  assert (forallb isAttributeEntry [attr (JStr s) v] = true) as Hl.
  { cbn. unfold isAttributeEntry, propOf. cbn. by rewrite Hv. }
  rewrite (partition_exact _ Hl). eexists; split; [done|].
  cbn [tabs tabsFrom]. unfold attr.
  rewrite (isTriggerField_string _ s) by done.
  by destruct (String.eqb _ _).
Qed.

Lemma X5_trigger_is_trimmed_lowercased_token_witness :
  ∃ r, groupCustomFieldsIntoTabs (JArr [attr (JStr "  __NewTAB ") (JStr "Docs")]) = Ok r
    ∧ length (tabs r) = 1.
Proof.
  apply (X5_trigger_is_trimmed_lowercased_token "  __NewTAB " (JStr "Docs")).
  reflexivity.
Defined.

Lemma forEach_nullish_raises l : ∀ st,
  existsb Js.isNullish l = true → forEach groupStep l st = Throw TypeError.
Proof.
  induction l as [|x l IH]; intros st H; cbn in H; [done|].
  cbn [forEach]. destruct (groupStep st x) as [st1|[]] eqn:E; [|done].
  rewrite bind_Ok. apply orb_true_iff in H as [Hx|Hl]; [|by apply IH].
  by destruct x.
Qed.

(** X6.  A [null] or [undefined] element anywhere in the array makes the
    partitioner raise a [TypeError]: no partial result comes back, whatever
    the other entries are. *)
Theorem X6_nullish_entry_raises (l : list JsVal) :
  existsb Js.isNullish l = true →
  groupCustomFieldsIntoTabs (JArr l) = Throw TypeError.
Proof.
  intros H. unfold groupCustomFieldsIntoTabs.
  destruct l as [|x l]; [done|]. cbn [length Nat.eqb].
  by rewrite (forEach_nullish_raises _ _ H).
Qed.

Lemma X6_nullish_entry_raises_witness :
  groupCustomFieldsIntoTabs
    (JArr [attr (JStr "Color") (JStr "Red"); JUndefined; attr (JStr "Size") (JStr "L")])
  = Throw TypeError.
Proof.
  apply (X6_nullish_entry_raises
           [attr (JStr "Color") (JStr "Red"); JUndefined; attr (JStr "Size") (JStr "L")]).
  reflexivity.
Defined.

(** X7.  The leading fields are the entries with a usable name that come
    before the first trigger, in order; with no trigger at all, every usable
    entry is a leading field. *)
Theorem X7_leading_before_first_trigger (l : list JsVal) :
  forallb isAttributeEntry l = true →
  ∃ r, groupCustomFieldsIntoTabs (JArr l) = Ok r
    ∧ leadingFields r = fieldsOf (untilTrigger l).
Proof. intros Hl. rewrite (partition_exact _ Hl). by eexists. Qed.

Lemma X7_leading_before_first_trigger_witness :
  ∃ r, groupCustomFieldsIntoTabs (JArr exampleFields) = Ok r
    ∧ leadingFields r = fieldsOf (untilTrigger exampleFields).
Proof. apply (X7_leading_before_first_trigger exampleFields). reflexivity. Defined.

(** X8.  The tabs are, in order, one per trigger, the [k]-th with the label
    and slug computed at position [k] and with the fields of the usable
    entries between that trigger and the next one. *)
Theorem X8_tabs_follow_triggers (l : list JsVal) :
  forallb isAttributeEntry l = true →
  ∃ r, groupCustomFieldsIntoTabs (JArr l) = Ok r ∧ tabs r = tabsFrom 0 l.
Proof. intros Hl. rewrite (partition_exact _ Hl). by eexists. Qed.

Lemma X8_tabs_follow_triggers_witness :
  ∃ r, groupCustomFieldsIntoTabs (JArr exampleFields) = Ok r
    ∧ tabs r = tabsFrom 0 exampleFields.
Proof. apply (X8_tabs_follow_triggers exampleFields). reflexivity. Defined.

Lemma lookup_tabsFrom pre x rest : ∀ k,
  isTriggerField x = true →
  tabsFrom k (pre ++ x :: rest) !! count isTriggerField pre
  = Some {| tab_label := tab_label (newTab (k + count isTriggerField pre) x);
            tab_slug := tab_slug (newTab (k + count isTriggerField pre) x);
            tab_fields := fieldsOf (untilTrigger rest) |}.
Proof.
  intros k Hx. revert k. unfold count.
  induction pre as [|y pre IH]; intros k; cbn [app tabsFrom List.filter].
  - rewrite Hx. cbn. by rewrite Nat.add_0_r.
  - destruct (isTriggerField y); cbn [length].
    + cbn. rewrite IH. by replace (S k + _) with (k + S (length (List.filter isTriggerField pre))) by lia.
    + apply IH.
Qed.

(** X9.  The tab opened by a trigger holds exactly the usable entries that
    stand between it and the next trigger: none when the trigger is the last
    entry or is followed at once by another trigger. *)
Theorem X9_tab_fields_until_next_trigger (pre rest : list JsVal) (x : JsVal) :
  forallb isAttributeEntry (pre ++ x :: rest) = true →
  isTriggerField x = true →
  ∃ r tab,
    groupCustomFieldsIntoTabs (JArr (pre ++ x :: rest)) = Ok r
    ∧ tabs r !! count isTriggerField pre = Some tab
    ∧ tab_fields tab = fieldsOf (untilTrigger rest)
    ∧ (untilTrigger rest = [] → tab_fields tab = []).
Proof.
  intros Hl Hx. rewrite (partition_exact _ Hl). eexists _, _.
  split; [done|]. cbn [tabs]. rewrite (lookup_tabsFrom _ _ _ 0 Hx).
  split; [done|]. cbn [tab_fields]. split; [done|]. by intros ->.
Qed.

Lemma X9_tab_fields_until_next_trigger_witness :
  ∃ r tab,
    groupCustomFieldsIntoTabs
      (JArr ([attr (JStr "__newtab") (JStr "A")]
             ++ attr (JStr "__newtab") (JStr "B") :: [])) = Ok r
    ∧ tabs r !! 1 = Some tab
    ∧ tab_fields tab = fieldsOf (untilTrigger [])
    ∧ (untilTrigger [] = [] → tab_fields tab = []).
Proof.
  apply (X9_tab_fields_until_next_trigger
           [attr (JStr "__newtab") (JStr "A")] [] (attr (JStr "__newtab") (JStr "B")));
    reflexivity.
Defined.

Lemma tabsFrom_wellformed l : ∀ k,
  Forall (fun t => JsString.isEmpty (tab_label t) = false
                   ∧ JsString.isEmpty (tab_slug t) = false
                   ∧ allSlugChars (tab_slug t) = true) (tabsFrom k l).
Proof.
  induction l as [|x l IH]; intros k; cbn [tabsFrom]; [constructor|].
  destruct (isTriggerField x); [|apply IH].
  constructor; [|apply IH]. cbn [tab_label tab_slug newTab].
  unfold headOfTrigger. cbn [fst snd].
  split; [|apply slugify_shape]. by case_match.
Qed.

(** X10.  Every tab of a partition has a non-empty label and a non-empty slug
    made of characters of [a-z0-9-] only. *)
Theorem X10_tabs_are_wellformed (l : list JsVal) (r : Partition) :
  forallb isAttributeEntry l = true →
  groupCustomFieldsIntoTabs (JArr l) = Ok r →
  Forall (fun t => JsString.isEmpty (tab_label t) = false
                   ∧ JsString.isEmpty (tab_slug t) = false
                   ∧ allSlugChars (tab_slug t) = true) (tabs r).
Proof.
  intros Hl Hr. rewrite (partition_exact _ Hl) in Hr. injection Hr as <-.
  apply tabsFrom_wellformed.
Qed.

Lemma X10_tabs_are_wellformed_witness :
  Forall (fun t => JsString.isEmpty (tab_label t) = false
                   ∧ JsString.isEmpty (tab_slug t) = false
                   ∧ allSlugChars (tab_slug t) = true) (tabs examplePartition).
Proof. apply (X10_tabs_are_wellformed exampleFields examplePartition); reflexivity. Defined.

(** ** What the presenter leaves in place *)

Lemma insertBefore_sublist {A} (isAnchor : A → bool) frag cs :
  cs `sublist_of` insertBefore isAnchor frag cs.
Proof.
  induction cs as [|c cs IH]; cbn; [done|].
  destruct (isAnchor c).
  - by apply sublist_inserts_l.
  - by apply sublist_skip.
Qed.

Lemma grows_refl doc : grows doc doc.
Proof. by repeat split. Qed.

Lemma grows_trans d1 d2 d3 : grows d1 d2 → grows d2 d3 → grows d1 d3.
Proof.
  intros (A1 & A2 & A3 & A4) (B1 & B2 & B3 & B4).
  repeat split; by etrans.
Qed.

Lemma injectLeading_grows fs doc : grows doc (injectLeadingCustomFields fs doc).2.
Proof.
  unfold injectLeadingCustomFields. repeat case_match; try apply grows_refl.
  repeat split; cbn; try done. apply insertBefore_sublist.
Qed.

Lemma injectDynamicTabs_grows ts doc : grows doc (injectDynamicTabs ts doc).2.
Proof.
  unfold injectDynamicTabs. repeat case_match; try apply grows_refl.
  repeat split; cbn; try done; apply insertBefore_sublist.
Qed.

Lemma bindDynamicTabClicks_grows doc : grows doc (bindDynamicTabClicks doc).2.
Proof. repeat split; cbn; try done. by apply sublist_inserts_r. Qed.

Lemma init_grows context doc : grows doc (initDynamicCustomFieldTabs context doc).2.
Proof.
  destruct (Js.truthy context) eqn:Hc.
  - rewrite init_unfold by done.
    destruct (negb (Js.truthy (contextFlag context))); [apply grows_refl|].
    destruct (negb (Js.truthy (contextList context))); [apply grows_refl|].
    unfold domBind at 1, domPure.
    destruct (groupCustomFieldsIntoTabs (contextList context)) as [p|e];
      [|apply grows_refl].
    unfold domBind.
    pose proof (injectLeading_grows (leadingFields p) doc) as H1.
    destruct (injectLeadingCustomFields (leadingFields p) doc) as [[[]|e] doc1];
      cbn [snd] in *; [|done].
    destruct (Nat.ltb 0 (length (tabs p))); [|done].
    pose proof (injectDynamicTabs_grows (tabs p) doc1) as H2.
    destruct (injectDynamicTabs (tabs p) doc1) as [[[]|e] doc2];
      cbn [snd] in *; [|by eapply grows_trans].
    eapply grows_trans; [done|]. eapply grows_trans; [done|].
    apply bindDynamicTabClicks_grows.
  - unfold initDynamicCustomFieldTabs. rewrite Hc. apply grows_refl.
Qed.

(** X11.  Whatever the context and however the call ends, the entry point
    removes nothing and reorders nothing: the children of the info list, of
    the tab list and of the tab-content container, and the registered
    listeners, are all still there, in their order. *)
Theorem X11_nothing_removed (context : JsVal) (doc : Document) :
  grows doc (initDynamicCustomFieldTabs context doc).2.
Proof. apply init_grows. Qed.

Lemma existsb_sublist {A} (f : A → bool) l1 l2 :
  l1 `sublist_of` l2 → existsb f l1 = true → existsb f l2 = true.
Proof.
  induction 1 as [|x l1 l2 _ IH|x l1 l2 _ IH]; cbn; [done| |].
  - intros [->|H]%orb_true_iff; [done|]. rewrite IH by done. apply orb_true_r.
  - intros H. rewrite IH by done. apply orb_true_r.
Qed.

(** X12.  The anchors are never removed: a page that holds the three anchors
    still holds them after the entry point has run, so a later run finds
    them again. *)
Theorem X12_anchors_survive (context : JsVal) (doc : Document) :
  anchorsPresent doc = true →
  anchorsPresent (initDynamicCustomFieldTabs context doc).2 = true.
Proof.
  intros [[H1 H2]%andb_true_iff H3]%andb_true_iff.
  destruct (init_grows context doc) as (G1 & G2 & G3 & _).
  unfold anchorsPresent, hasAnchor in *.
  by rewrite (existsb_sublist _ _ _ G1 H1), (existsb_sublist _ _ _ G2 H2),
    (existsb_sublist _ _ _ G3 H3).
Qed.

Lemma X12_anchors_survive_witness :
  anchorsPresent
    (initDynamicCustomFieldTabs (mkContext (JBool true) exampleInput) hostDoc).2 = true.
Proof.
  apply (X12_anchors_survive (mkContext (JBool true) exampleInput) hostDoc).
  reflexivity.
Defined.

Lemma active_context context r :
  groupCustomFieldsIntoTabs (contextList context) = Ok r →
  tabs r ≠ [] →
  Js.truthy context = true ∧ Js.truthy (contextList context) = true.
Proof.
  intros Hr Ht.
  assert (Js.truthy (contextList context) = true) as Hlist.
  { destruct (contextList context) as [| | | | |[|x l]|]; try done;
      cbn in Hr; injection Hr as <-; done. }
  split; [|done]. unfold contextList, propOf in Hlist. by destruct context.
Qed.

(** Leading rows built from plain values keep a page of text a page of text. *)
Lemma injectLeading_text fs doc :
  pageIsText doc = true →
  forallb plainField fs = true →
  pageIsText (injectLeadingCustomFields fs doc).2 = true.
Proof.
  intros Htext Hp. unfold injectLeadingCustomFields.
  destruct (Nat.eqb (length fs) 0); [done|].
  destruct (negb (hasAnchor isInfoAnchor (doc_info doc))); [done|].
  destruct (fieldsFragment fs) as [rows|] eqn:Hrows; [|done].
  apply andb_true_iff in Htext as [[P1 P2]%andb_true_iff P3].
  pose proof (fieldsFragment_text _ _ Hp Hrows) as T0.
  unfold pageIsText, rowsAreText in *. cbn [snd doc_info doc_tabList doc_tabContents].
  by rewrite forallb_insertBefore, P2, P3.
Qed.

(** X13.  On a page whose value markup is text, and for leading fields whose
    values are text, so that no element parsed from a value can stand in for
    an anchor: when the tab-label anchor or the tab-content anchor is
    missing, a partition with tabs is rendered into neither region, yet the
    click listener is registered all the same, the call ends normally and
    the page still holds text only. *)
Theorem X13_missing_tab_anchor (context : JsVal) (doc : Document) (r : Partition) :
  Js.truthy (contextFlag context) = true →
  readableContext context = true →
  groupCustomFieldsIntoTabs (contextList context) = Ok r →
  tabs r ≠ [] →
  hasAnchor isTabsAnchor (doc_tabList doc)
  && hasAnchor isContentAnchor (doc_tabContents doc) = false →
  pageIsText doc = true →
  forallb plainField (leadingFields r) = true →
  ∃ doc',
    initDynamicCustomFieldTabs context doc = (Ok (), doc')
    ∧ doc_tabList doc' = doc_tabList doc
    ∧ doc_tabContents doc' = doc_tabContents doc
    ∧ doc_listeners doc' = doc_listeners doc ++ [DynamicTabClick]
    ∧ pageIsText doc' = true.
Proof.
  intros Hflag Hread Hr Ht Hmiss Htext Hplain.
  destruct (active_context _ _ Hr Ht) as [Hc Hlist].
  destruct (group_readable context Hread) as (r' & Hr' & Hf).
  assert (r' = r) as -> by congruence.
  assert (Forall renderable (allFields r)) as Hp.
  { eapply Forall_impl; [exact Hf|]. by intros f [_ ?]. }
  apply Forall_app in Hp as [Hlead _].
  rewrite init_unfold by done. rewrite Hflag, Hlist. cbn [negb].
  unfold domBind at 1, domPure. rewrite Hr. unfold domBind.
  pose proof (injectLeading_frame (leadingFields r) doc) as (F1 & F2 & F3).
  pose proof (injectLeading_text (leadingFields r) doc Htext Hplain) as Htext1.
  destruct (injectLeading_Ok (leadingFields r) doc Hlead) as [doc1 E1].
  rewrite E1 in *. cbn [snd] in *.
  destruct (tabs r) as [|t ts] eqn:Ets; [done|]. cbn [length Nat.ltb Nat.leb].
  unfold injectDynamicTabs. cbn [length Nat.eqb]. rewrite F1, F2.
  apply andb_false_iff in Hmiss.
  assert (negb (hasAnchor isTabsAnchor (doc_tabList doc))
          || negb (hasAnchor isContentAnchor (doc_tabContents doc)) = true) as ->.
  { destruct Hmiss as [->| ->]; cbn; [done|apply orb_true_r]. }
  eexists. split; [done|]. cbn. by rewrite F3.
Qed.

Lemma X13_missing_tab_anchor_witness :
  ∃ doc',
    initDynamicCustomFieldTabs (mkContext (JBool true) exampleInput) bareDoc
    = (Ok (), doc')
    ∧ doc_tabList doc' = doc_tabList bareDoc
    ∧ doc_tabContents doc' = doc_tabContents bareDoc
    ∧ doc_listeners doc' = doc_listeners bareDoc ++ [DynamicTabClick]
    ∧ pageIsText doc' = true.
Proof.
  apply (X13_missing_tab_anchor (mkContext (JBool true) exampleInput) bareDoc
           examplePartition); try reflexivity.
  discriminate.
Defined.




(** ** Labels, panels and clicks *)

Lemma tabFragments_rows ts : ∀ i frags,
  tabFragments i ts = Ok frags →
  Forall (fun t => ∃ rows, fieldsFragment (tab_fields t) = Ok rows) ts.
Proof.
  induction ts as [|t ts IH]; intros i frags H; cbn [tabFragments] in H;
    [constructor|].
  destruct (fieldsFragment (tab_fields t)) as [rows|] eqn:Er; [|done].
  rewrite bind_Ok in H.
  destruct (tabFragments (S i) ts) as [more|] eqn:Em; [|done].
  constructor; [by eexists|]. by apply (IH (S i) more).
Qed.

Lemma tabFragments_lookup ts frags k tab :
  tabFragments 0 ts = Ok frags →
  ts !! k = Some tab →
  ∃ rows,
    fieldsFragment (tab_fields tab) = Ok rows
    ∧ frags.1 !! k
      = Some (TabLi {| item_href := "#" +:+ renderedId (tab_slug tab) k;
                       item_html := escapeHtml (JStr (tab_label tab));
                       item_active := false |})
    ∧ frags.2 !! k
      = Some (PanelDiv {| panel_id := renderedId (tab_slug tab) k;
                          panel_rows := rows;
                          panel_active := false |}).
Proof.
  intros Hf Hk.
  pose proof (tabFragments_rows _ _ _ Hf) as Hrows.
  rewrite Forall_lookup in Hrows. destruct (Hrows k tab Hk) as [rows Hr].
  destruct (tabFragments_ids _ _ _ Hf) as [-> ->].
  exists rows. split; [done|].
  rewrite !list_lookup_imap, Hk. cbn. by rewrite Hr.
Qed.

(** X15.  The presenter builds one label and one panel per tab, in tab order;
    the label at position [k] links to the panel at position [k], whose id is
    [tab-dynamic-<slug>-k] and whose rows are those of the tab's fields; none
    of them is active. *)
Theorem X15_label_links_to_its_panel
    (ts : list Tab) (frags : list TabListNode * list ContentNode) (k : nat) (tab : Tab) :
  tabFragments 0 ts = Ok frags →
  ts !! k = Some tab →
  length frags.1 = length ts ∧ length frags.2 = length ts
  ∧ ∃ item panel,
      frags.1 !! k = Some (TabLi item) ∧ frags.2 !! k = Some (PanelDiv panel)
      ∧ item_href item = "#" +:+ panel_id panel
      ∧ panel_id panel = renderedId (tab_slug tab) k
      ∧ fieldsFragment (tab_fields tab) = Ok (panel_rows panel)
      ∧ item_active item = false ∧ panel_active panel = false.
Proof.
  intros Hf Hk.
  destruct (tabFragments_lookup _ _ _ _ Hf Hk) as (rows & Hr & H1 & H2).
  destruct (tabFragments_ids _ _ _ Hf) as [E2 E1].
  split; [by rewrite E1, length_imap|]. split; [by rewrite E2, length_imap|].
  eexists _, _. by repeat split.
Qed.

Lemma X15_label_links_to_its_panel_witness :
  length twoInfoFragments.1 = length twoInfoTabs
  ∧ length twoInfoFragments.2 = length twoInfoTabs
  ∧ ∃ item panel,
      twoInfoFragments.1 !! 1 = Some (TabLi item)
      ∧ twoInfoFragments.2 !! 1 = Some (PanelDiv panel)
      ∧ item_href item = "#" +:+ panel_id panel
      ∧ panel_id panel = renderedId "info" 1
      ∧ fieldsFragment [] = Ok (panel_rows panel)
      ∧ item_active item = false ∧ panel_active panel = false.
Proof.
  apply (X15_label_links_to_its_panel twoInfoTabs twoInfoFragments 1
           {| tab_label := "Info"; tab_slug := "info"; tab_fields := [] |});
    reflexivity.
Defined.

Lemma insertBefore_anchorIndex {A} (isAnchor : A → bool) frag cs :
  hasAnchor isAnchor cs = true →
  let n := anchorIndex isAnchor cs in
  insertBefore isAnchor frag cs = take n cs ++ frag ++ drop n cs
  ∧ n < length cs.
Proof.
  unfold hasAnchor. induction cs as [|c cs IH]; cbn; [done|].
  destruct (isAnchor c) eqn:Ec; cbn.
  - intros _. split; [done|lia].
  - intros H. destruct (IH H) as [-> Hn]. split; [done|lia].
Qed.

Lemma lookup_inserted {A} (isAnchor : A → bool) frag cs k :
  hasAnchor isAnchor cs = true →
  k < length frag →
  insertBefore isAnchor frag cs !! (anchorIndex isAnchor cs + k) = frag !! k.
Proof.
  intros Ha Hk. destruct (insertBefore_anchorIndex isAnchor frag cs Ha) as [-> Hn].
  rewrite lookup_app_r by (rewrite length_take; lia).
  rewrite length_take, Nat.min_l by lia.
  replace (anchorIndex isAnchor cs + k - anchorIndex isAnchor cs) with k by lia.
  by rewrite lookup_app_l.
Qed.

Lemma lookup_before_inserted {A} (isAnchor : A → bool) frag cs j :
  hasAnchor isAnchor cs = true →
  j < anchorIndex isAnchor cs →
  insertBefore isAnchor frag cs !! j = cs !! j.
Proof.
  intros Ha Hj. destruct (insertBefore_anchorIndex isAnchor frag cs Ha) as [-> Hn].
  rewrite lookup_app_l by (rewrite length_take; lia).
  by rewrite lookup_take_lt.
Qed.

Lemma forallb_lookup {A} (f : A → bool) l j x :
  forallb f l = true → l !! j = Some x → f x = true.
Proof.
  revert j. induction l as [|y l IH]; intros [|j] H Hj; cbn in *; try done.
  - injection Hj as ->. by apply andb_true_iff in H as [? _].
  - apply andb_true_iff in H as [_ H]. by apply (IH j).
Qed.

(** The handler finds the first panel that carries the id. *)
Lemma findPanel_first id cs : ∀ k p,
  cs !! k = Some (PanelDiv p) → panel_id p = id →
  (∀ j q, j < k → cs !! j = Some (PanelDiv q) → panel_id q ≠ id) →
  findPanel id cs = Some k.
Proof.
  induction cs as [|c cs IH]; intros k p Hk Hid Hfirst; [done|].
  destruct k as [|k]; cbn in Hk.
  - injection Hk as ->. cbn. by rewrite Hid, String.eqb_refl.
  - assert (findPanel id cs = Some k) as Hrec.
    { apply (IH k p Hk Hid). intros j q Hj Hq. apply (Hfirst (S j) q); [lia|done]. }
    cbn. destruct c as [|q]; [by rewrite Hrec|].
    destruct (String.eqb (panel_id q) id) eqn:E; [|by rewrite Hrec].
    apply String.eqb_eq in E. by destruct (Hfirst 0 q ltac:(lia) eq_refl).
Qed.

Lemma dynamicTabClick_found doc this item content :
  doc_tabList doc !! this = Some (TabLi item) →
  JsString.startsWith "#tab-dynamic-" (item_href item) = true →
  isIdSelector (item_href item) = true →
  lookupById doc (fragmentOf (item_href item)) = PanelAt content →
  dynamicTabClick doc this
  = Handled
      {| doc_info := doc_info doc;
         doc_tabList := alter (setItemActive true) this (setItemActive false <$> doc_tabList doc);
         doc_tabContents :=
           alter (setPanelActive true) content (setPanelActive false <$> doc_tabContents doc);
         doc_listeners := doc_listeners doc |}
      true.
Proof.
  intros Hthis Hprefix Hid Hfind. unfold dynamicTabClick.
  by rewrite Hthis, Hprefix, Hid, Hfind, (delegated_href_not_bare _ Hprefix).
Qed.

Lemma startsWith_app p s : JsString.startsWith p (p +:+ s) = true.
Proof.
  induction p as [|c p IH]; [done|].
  rewrite append_cons. cbn. by rewrite Ascii.eqb_refl, IH.
Qed.

(** In a page rendered over a host whose panels are clear of dynamic ids, the
    first panel that carries the id of tab [k] is the panel built for tab [k],
    whatever was inserted after the panels of that run. *)
Lemma findPanel_injected ts frags extra cs k tab :
  tabFragments 0 ts = Ok frags →
  ts !! k = Some tab →
  hasAnchor isContentAnchor cs = true →
  forallb
    (fun n => match n with
              | PanelDiv p => negb (JsString.startsWith "tab-dynamic-" (panel_id p))
              | ContentAnchor => true
              end) cs = true →
  findPanel (renderedId (tab_slug tab) k)
    (insertBefore isContentAnchor (frags.2 ++ extra) cs)
  = Some (anchorIndex isContentAnchor cs + k).
Proof.
  intros Hf Hk Ha Hclear.
  destruct (tabFragments_lookup _ _ _ _ Hf Hk) as (rows & _ & _ & H2).
  destruct (tabFragments_ids _ _ _ Hf) as [E2 _].
  assert (k < length frags.2) as Hlen by (by eapply lookup_lt_Some).
  eapply findPanel_first.
  - rewrite lookup_inserted by (try done; rewrite length_app; lia).
    by rewrite lookup_app_l.
  - done.
  - intros j q Hj Hq Heq.
    destruct (decide (j < anchorIndex isContentAnchor cs)) as [Hlt|Hge].
    + rewrite lookup_before_inserted in Hq by done.
      pose proof (forallb_lookup _ _ _ _ Hclear Hq) as Hc. cbv beta iota in Hc.
      rewrite Heq in Hc. unfold renderedId in Hc.
      by rewrite startsWith_app in Hc.
    + replace j with (anchorIndex isContentAnchor cs + (j - anchorIndex isContentAnchor cs))
        in Hq by lia.
      rewrite lookup_inserted in Hq by (try done; rewrite length_app; lia).
      rewrite lookup_app_l in Hq by lia.
      rewrite E2, list_lookup_imap in Hq.
      destruct (ts !! (j - anchorIndex isContentAnchor cs)) as [tab'|]; [|done].
      cbn in Hq. injection Hq as <-. cbn in Heq.
      apply renderedId_inj in Heq as [_ Heq]. lia.
Qed.

(** X16.  End to end: on a page that holds the anchors, whose own panels
    carry no id of the dynamic family and whose value markup is text, after
    the entry point has rendered a list whose field values are text, a click
    on the label built for tab [k] is handled, prevents the default
    navigation and leaves active the clicked label and the panel built for
    tab [k], the one that shows that tab's fields. *)
Theorem X16_click_opens_own_panel
    (l : list JsVal) (doc : Document) (r : Partition) (k : nat) (tab : Tab) :
  forallb isAttributeEntry l = true →
  groupCustomFieldsIntoTabs (JArr l) = Ok r →
  tabs r !! k = Some tab →
  anchorsPresent doc = true →
  hostPanelsClear doc = true →
  pageIsText doc = true →
  forallb plainField (allFields r) = true →
  ∃ doc1 doc2 item panel,
    initDynamicCustomFieldTabs (mkContext (JBool true) (JArr l)) doc = (Ok (), doc1)
    ∧ dynamicTabClick doc1 (anchorIndex isTabsAnchor (doc_tabList doc) + k)
      = Handled doc2 true
    ∧ doc_tabList doc2 !! (anchorIndex isTabsAnchor (doc_tabList doc) + k)
      = Some (TabLi item)
    ∧ item_active item = true
    ∧ doc_tabContents doc2 !! (anchorIndex isContentAnchor (doc_tabContents doc) + k)
      = Some (PanelDiv panel)
    ∧ panel_active panel = true
    ∧ panel_id panel = renderedId (tab_slug tab) k
    ∧ fieldsFragment (tab_fields tab) = Ok (panel_rows panel).
Proof.
  intros Hl Hr Hk Ha Hclear Htext Hplain.
  set (context := mkContext (JBool true) (JArr l)).
  assert (readableContext context = true) as Hread by exact Hl.
  destruct (group_readable context Hread) as (r' & Hr' & Hf).
  assert (r' = r) as -> by (change (contextList context) with (JArr l) in Hr'; congruence).
  assert (Forall renderable (allFields r)) as Hp.
  { eapply Forall_impl; [exact Hf|]. by intros f [_ ?]. }
  apply Forall_app in Hp as [Hlead Htabs]. apply Forall_concat_fields in Htabs.
  destruct (fieldsFragment_Ok _ Hlead) as [lead Hle].
  destruct (tabFragments_Ok _ Htabs 0) as [frags Hfr].
  assert (tabs r ≠ []) as Hne by (intros E; by rewrite E in Hk).
  pose proof (init_rendered context doc r lead frags eq_refl Hr' Hne Ha Hle Hfr) as Hinit.
  apply andb_true_iff in Ha as [[Ha1 Ha2]%andb_true_iff Ha3].
  destruct (tabFragments_lookup _ _ _ _ Hfr Hk) as (rows & Hrows & H1 & H2).
  assert (k < length frags.1) as Hk1 by (by eapply lookup_lt_Some).
  assert (k < length frags.2) as Hk2 by (by eapply lookup_lt_Some).
  pose proof (partition_slugs l r Hl Hr) as Hslugs.
  rewrite Forall_lookup in Hslugs. specialize (Hslugs k tab Hk).
  destruct (renderedId_selector (tab_slug tab) k Hslugs) as [Hsel Hpre].
  pose proof (findPanel_injected _ _ [] _ _ _ Hfr Hk Ha3 Hclear) as Hfind.
  rewrite app_nil_r in Hfind.
  pose proof (rendered_text r lead frags doc Htext Hplain Hle Hfr) as Htext1.
  eexists _, _, _, _. split; [exact Hinit|].
  split.
  { eapply dynamicTabClick_found.
    - cbn [rendered doc_tabList]. rewrite lookup_inserted by done. exact H1.
    - exact Hpre.
    - exact Hsel.
    - rewrite (lookupById_text _ _ Htext1). cbn [item_href fragmentOf].
      change (doc_tabContents (rendered lead frags doc))
        with (insertBefore isContentAnchor frags.2 (doc_tabContents doc)).
      change (fragmentOf ("#" +:+ renderedId (tab_slug tab) k))
        with (renderedId (tab_slug tab) k).
      by rewrite Hfind. }
  cbn [doc_tabList doc_tabContents rendered].
  rewrite !(lookup_activate _ setItemActive_twice),
    !(lookup_activate _ setPanelActive_twice).
  rewrite !lookup_inserted, H1, H2 by done.
  rewrite !bool_decide_eq_true_2 by done. cbn.
  by repeat split.
Qed.

Lemma X16_click_opens_own_panel_witness :
  ∃ doc1 doc2 item panel,
    initDynamicCustomFieldTabs (mkContext (JBool true) (JArr plainExampleFields)) hostDoc
    = (Ok (), doc1)
    ∧ dynamicTabClick doc1 (anchorIndex isTabsAnchor (doc_tabList hostDoc) + 1)
      = Handled doc2 true
    ∧ doc_tabList doc2 !! (anchorIndex isTabsAnchor (doc_tabList hostDoc) + 1)
      = Some (TabLi item)
    ∧ item_active item = true
    ∧ doc_tabContents doc2 !! (anchorIndex isContentAnchor (doc_tabContents hostDoc) + 1)
      = Some (PanelDiv panel)
    ∧ panel_active panel = true
    ∧ panel_id panel = renderedId "tab-custom-1" 1
    ∧ fieldsFragment [ {| field_name := JStr "Note"; field_value := JStr "hi" |} ]
      = Ok (panel_rows panel).
Proof.
  apply (X16_click_opens_own_panel plainExampleFields hostDoc plainExamplePartition 1
           {| tab_label := "Details"; tab_slug := "tab-custom-1";
              tab_fields :=
                [ {| field_name := JStr "Note"; field_value := JStr "hi" |} ] |});
    reflexivity.
Defined.

Lemma findPanel_fmap_active id b cs :
  findPanel id (setPanelActive b <$> cs) = findPanel id cs.
Proof.
  induction cs as [|c cs IH]; [done|]. rewrite fmap_cons.
  destruct c as [|p]; cbn [setPanelActive findPanel panel_id]; by rewrite IH.
Qed.

Lemma findPanel_alter_active id b cs : ∀ i,
  findPanel id (alter (setPanelActive b) i cs) = findPanel id cs.
Proof.
  induction cs as [|c cs IH]; intros [|i]; try done.
  - by destruct c.
  - change (alter (setPanelActive b) (S i) (c :: cs))
      with (c :: alter (setPanelActive b) i cs).
    destruct c as [|p]; cbn [findPanel]; by rewrite IH.
Qed.

Lemma activate_idem {N} (set : bool → N → N)
    (Hset : ∀ b b' n, set b' (set b n) = set b' n) (l : list N) (i : nat) :
  alter (set true) i (set false <$> alter (set true) i (set false <$> l))
  = alter (set true) i (set false <$> l).
Proof.
  apply list_eq. intros j. rewrite !(lookup_activate _ Hset).
  destruct (l !! j) as [n|]; cbn; [|done]. by rewrite Hset.
Qed.

Lemma forallb_images {N} (P : N → bool) l : forallb P l = forallb id (P <$> l).
Proof. induction l as [|x l IH]; [done|]. rewrite fmap_cons. cbn. by rewrite IH. Qed.

Lemma activated_images {N} (P : N → bool) (set : bool → N → N)
    (Hset : ∀ b b' n, set b' (set b n) = set b' n)
    (HP : ∀ b n, P (set b n) = P n) (l : list N) (i : nat) :
  P <$> alter (set true) i (set false <$> l) = P <$> l.
Proof.
  apply list_eq. intros j. rewrite !list_lookup_fmap, (lookup_activate _ Hset).
  destruct (l !! j) as [n|]; cbn; [|done]. by rewrite HP.
Qed.

(** Activating a label and a panel changes no id and no markup, so the
    lookup answers as before. *)
Lemma lookupById_activated doc this content id :
  lookupById
    {| doc_info := doc_info doc;
       doc_tabList := alter (setItemActive true) this (setItemActive false <$> doc_tabList doc);
       doc_tabContents :=
         alter (setPanelActive true) content (setPanelActive false <$> doc_tabContents doc);
       doc_listeners := doc_listeners doc |} id
  = lookupById doc id.
Proof.
  unfold lookupById, labelsAreText, panelsAreText.
  cbn [doc_info doc_tabList doc_tabContents].
  rewrite findPanel_alter_active, findPanel_fmap_active.
  rewrite (forallb_images _ (alter _ _ _)),
    (activated_images _ _ setItemActive_twice) by (by intros b' []).
  rewrite <- forallb_images.
  destruct (rowsAreText (doc_info doc) && _); [|done].
  destruct (findPanel id (doc_tabContents doc)) as [i|].
  - rewrite (forallb_images _ (take i (alter _ _ _))), fmap_take,
      (activated_images _ _ setPanelActive_twice) by (by intros b' []).
    by rewrite <- fmap_take, <- forallb_images.
  - rewrite (forallb_images _ (alter _ _ _)),
      (activated_images _ _ setPanelActive_twice) by (by intros b' []).
    by rewrite <- forallb_images.
Qed.

(** X17.  A handled click is idempotent: the same click on the resulting page
    is handled again and leaves that page as it is.  So the handler may be
    registered, and run, more than once for one click without harm. *)
Theorem X17_click_is_idempotent (doc doc' : Document) (this : nat) :
  dynamicTabClick doc this = Handled doc' true →
  dynamicTabClick doc' this = Handled doc' true.
Proof.
  intros H. unfold dynamicTabClick in H.
  destruct (doc_tabList doc !! this) as [[|item]|] eqn:Hthis; try done.
  destruct (JsString.startsWith "#tab-dynamic-" (item_href item)) eqn:Hpre; [|done].
  cbn [negb] in H.
  destruct (JsString.isEmpty (item_href item) || String.eqb (item_href item) "#");
    [done|].
  destruct (isIdSelector (item_href item)) eqn:Hsel; [|done]. cbn [negb] in H.
  destruct (lookupById doc (fragmentOf (item_href item)))
    as [|content|] eqn:Hfind; try done.
  injection H as <-.
  erewrite dynamicTabClick_found.
  - cbn [doc_info doc_tabList doc_tabContents doc_listeners].
    by rewrite (activate_idem _ setItemActive_twice),
      (activate_idem _ setPanelActive_twice).
  - cbn [doc_tabList]. rewrite (lookup_activate _ setItemActive_twice), Hthis.
    rewrite bool_decide_eq_true_2 by done. reflexivity.
  - exact Hpre.
  - exact Hsel.
  - cbn [item_href]. by rewrite lookupById_activated.
Qed.

Lemma X17_click_is_idempotent_witness :
  ∃ doc', dynamicTabClick exampleDoc 1 = Handled doc' true
          ∧ dynamicTabClick doc' 1 = Handled doc' true.
Proof.
  eexists. split; [reflexivity|].
  eapply (X17_click_is_idempotent exampleDoc _ 1). reflexivity.
Defined.

(** ** Failures while rendering *)



(** X19.  When the rows of the leading fields cannot be built, the call
    raises with the document exactly as it was: nothing is inserted and no
    listener is registered, even if the list also holds tabs. *)
Theorem X19_leading_failure_leaves_document
    (context : JsVal) (doc : Document) (r : Partition) (e : JsError) :
  Js.truthy (contextFlag context) = true →
  groupCustomFieldsIntoTabs (contextList context) = Ok r →
  hasAnchor isInfoAnchor (doc_info doc) = true →
  fieldsFragment (leadingFields r) = Throw e →
  initDynamicCustomFieldTabs context doc = (Throw e, doc).
Proof.
  intros Hflag Hr Ha Hlead.
  assert (leadingFields r ≠ []) as Hne by (intros E; by rewrite E in Hlead).
  assert (Js.truthy (contextList context) = true) as Hlist.
  { destruct (contextList context) as [| | | | |[|x l]|]; try done;
      cbn in Hr; injection Hr as <-; done. }
  assert (Js.truthy context = true) as Hc.
  { unfold contextList, propOf in Hlist. by destruct context. }
  rewrite init_unfold by done. rewrite Hflag, Hlist. cbn [negb].
  unfold domBind at 1, domPure. rewrite Hr. unfold domBind.
  unfold injectLeadingCustomFields. rewrite Ha, Hlead.
  by destruct (leadingFields r).
Qed.

Lemma X19_leading_failure_leaves_document_witness :
  initDynamicCustomFieldTabs
    (mkContext (JBool true)
       (JArr [ attr (JStr "Bad") (JObj [("toString", JNum "1")]);
               attr (JStr "__newtab") (JStr "Specs") ])) hostDoc
  = (Throw TypeError, hostDoc).
Proof.
  apply (X19_leading_failure_leaves_document
           (mkContext (JBool true)
              (JArr [ attr (JStr "Bad") (JObj [("toString", JNum "1")]);
                      attr (JStr "__newtab") (JStr "Specs") ])) hostDoc
           {| leadingFields :=
                [ {| field_name := JStr "Bad";
                     field_value := JObj [("toString", JNum "1")] |} ];
              tabs := [ {| tab_label := "Specs"; tab_slug := "specs"; tab_fields := [] |} ] |});
    reflexivity.
Defined.

(** ** Regions are rendered independently; copies share their ids *)



(** X21.  On a page whose value markup is text, after two runs over a list
    whose field values are text, the page holds every panel id twice.  A
    click on the second copy of the label of tab [k] is handled, but the
    panel it activates is the first one carrying the id, the first copy; the
    panel of the second copy stays inactive. *)
Theorem X21_second_copy_opens_first_panel
    (l : list JsVal) (doc : Document) (r : Partition) (k : nat) (tab : Tab) :
  forallb isAttributeEntry l = true →
  groupCustomFieldsIntoTabs (JArr l) = Ok r →
  tabs r !! k = Some tab →
  anchorsPresent doc = true →
  hostPanelsClear doc = true →
  pageIsText doc = true →
  forallb plainField (allFields r) = true →
  let context := mkContext (JBool true) (JArr l) in
  let n := anchorIndex isTabsAnchor (doc_tabList doc) in
  let m := anchorIndex isContentAnchor (doc_tabContents doc) in
  ∃ doc1 doc2 doc3 first second,
    initDynamicCustomFieldTabs context doc = (Ok (), doc1)
    ∧ initDynamicCustomFieldTabs context doc1 = (Ok (), doc2)
    ∧ dynamicTabClick doc2 (n + (length (tabs r) + k)) = Handled doc3 true
    ∧ doc_tabContents doc3 !! (m + k) = Some (PanelDiv first)
    ∧ doc_tabContents doc3 !! (m + (length (tabs r) + k)) = Some (PanelDiv second)
    ∧ panel_id first = renderedId (tab_slug tab) k
    ∧ panel_id second = renderedId (tab_slug tab) k
    ∧ panel_active first = true
    ∧ panel_active second = false.
Proof.
  intros Hl Hr Hk Ha Hclear Htext Hplain context n m. subst n m.
  assert (readableContext context = true) as Hread by exact Hl.
  destruct (group_readable context Hread) as (r' & Hr' & Hf).
  assert (r' = r) as -> by (change (contextList context) with (JArr l) in Hr'; congruence).
  assert (Forall renderable (allFields r)) as Hp.
  { eapply Forall_impl; [exact Hf|]. by intros f [_ ?]. }
  apply Forall_app in Hp as [Hlead Htabs]. apply Forall_concat_fields in Htabs.
  destruct (fieldsFragment_Ok _ Hlead) as [lead Hle].
  destruct (tabFragments_Ok _ Htabs 0) as [frags Hfr].
  assert (tabs r ≠ []) as Hne by (intros E; by rewrite E in Hk).
  destruct (tabFragments_no_anchor _ _ _ Hfr) as [Hn1 Hn2].
  pose proof (fieldsFragment_no_anchor _ _ Hle) as Hn0.
  pose proof (init_rendered context doc r lead frags eq_refl Hr' Hne Ha Hle Hfr) as H1.
  assert (anchorsPresent (rendered lead frags doc) = true) as Ha'.
  { apply andb_true_iff in Ha as [[A1 A2]%andb_true_iff A3].
    unfold anchorsPresent, rendered. cbn. by rewrite !hasAnchor_insertBefore. }
  pose proof (init_rendered context _ r lead frags eq_refl Hr' Hne Ha' Hle Hfr) as H2.
  apply andb_true_iff in Ha as [[Ha1 Ha2]%andb_true_iff Ha3].
  destruct (tabFragments_lookup _ _ _ _ Hfr Hk) as (rows & Hrows & L1 & L2).
  destruct (tabFragments_ids _ _ _ Hfr) as [E2 E1].
  assert (length frags.1 = length (tabs r)) as Hlen1 by (by rewrite E1, length_imap).
  assert (length frags.2 = length (tabs r)) as Hlen2 by (by rewrite E2, length_imap).
  assert (k < length (tabs r)) as Hklt by (by eapply lookup_lt_Some).
  pose proof (partition_slugs l r Hl Hr) as Hslugs.
  rewrite Forall_lookup in Hslugs. specialize (Hslugs k tab Hk).
  destruct (renderedId_selector (tab_slug tab) k Hslugs) as [Hsel Hpre].
  pose proof (findPanel_injected _ _ frags.2 _ _ _ Hfr Hk Ha3 Hclear) as Hfind.
  assert (doc_tabList (rendered lead frags (rendered lead frags doc))
          = insertBefore isTabsAnchor (frags.1 ++ frags.1) (doc_tabList doc)) as T2.
  { cbn. by rewrite insertBefore_twice. }
  assert (doc_tabContents (rendered lead frags (rendered lead frags doc))
          = insertBefore isContentAnchor (frags.2 ++ frags.2) (doc_tabContents doc)) as C2.
  { cbn. by rewrite insertBefore_twice. }
  eexists _, _, _, _, _. split; [exact H1|]. split; [exact H2|].
  split.
  { eapply dynamicTabClick_found.
    - rewrite T2.
      rewrite lookup_inserted by (try done; rewrite length_app; lia).
      rewrite lookup_app_r by lia. rewrite Hlen1.
      replace (length (tabs r) + k - length (tabs r)) with k by lia. exact L1.
    - exact Hpre.
    - exact Hsel.
    - pose proof (rendered_text r lead frags _ Htext Hplain Hle Hfr) as Htext1.
      pose proof (rendered_text r lead frags _ Htext1 Hplain Hle Hfr) as Htext2.
      rewrite (lookupById_text _ _ Htext2), C2. cbn [item_href fragmentOf].
      change (fragmentOf ("#" +:+ renderedId (tab_slug tab) k))
        with (renderedId (tab_slug tab) k).
      by rewrite Hfind. }
  cbn [doc_tabContents]. rewrite C2.
  rewrite !(lookup_activate _ setPanelActive_twice).
  rewrite !lookup_inserted by (try done; rewrite length_app; lia).
  rewrite lookup_app_l by lia. rewrite lookup_app_r by lia. rewrite Hlen2.
  replace (length (tabs r) + k - length (tabs r)) with k by lia.
  rewrite L2. rewrite bool_decide_eq_true_2 by done.
  rewrite bool_decide_eq_false_2 by lia. cbn.
  by repeat split.
Qed.

Lemma X21_second_copy_opens_first_panel_witness :
  ∃ doc1 doc2 doc3 first second,
    initDynamicCustomFieldTabs (mkContext (JBool true) (JArr plainExampleFields)) hostDoc
    = (Ok (), doc1)
    ∧ initDynamicCustomFieldTabs (mkContext (JBool true) (JArr plainExampleFields)) doc1
      = (Ok (), doc2)
    ∧ dynamicTabClick doc2 (1 + (2 + 0)) = Handled doc3 true
    ∧ doc_tabContents doc3 !! (1 + 0) = Some (PanelDiv first)
    ∧ doc_tabContents doc3 !! (1 + (2 + 0)) = Some (PanelDiv second)
    ∧ panel_id first = renderedId "specs" 0
    ∧ panel_id second = renderedId "specs" 0
    ∧ panel_active first = true
    ∧ panel_active second = false.
Proof.
  apply (X21_second_copy_opens_first_panel plainExampleFields hostDoc plainExamplePartition 0
           {| tab_label := "Specs"; tab_slug := "specs";
              tab_fields :=
                [ {| field_name := JStr "Weight"; field_value := JStr "2kg" |} ] |});
    reflexivity.
Defined.

Example trim_ex : JsString.trim "  a b  " = "a b".
Proof. reflexivity. Qed.

Example replace_ex : JsString.replaceWsRuns "a  b c" = "a-b-c".
Proof. reflexivity. Qed.

Example ofNat_ex : JsString.ofNat 12 = "12".
Proof. reflexivity. Qed.

Example slugify_ex : slugify (JStr "Tech Specs & More") 0 = "tech-specs--more".
Proof. reflexivity. Qed.

Example slugify_fallback_ex : slugify (JStr "???") 3 = "tab-custom-3".
Proof. reflexivity. Qed.

Example toLowerCase_ex : JsString.toLowerCase "__NewTab" = "__newtab".
Proof. reflexivity. Qed.

Example escapeHtml_ex : escapeHtml (JStr "R&D <x>") = "R&amp;D &lt;x&gt;".
Proof. reflexivity. Qed.

Example toString_arr :
  Js.toString (JArr [JStr "a"; JNull; JNum "2"; JArr [JBool true; JUndefined]]) = Ok "a,,2,true,".
Proof. reflexivity. Qed.



